(** * Session / command lifecycle of the web terminal

    A shallow embedding of the terminal [App] component (the React component
    with the tab bar, [executeCommand], [cancelCommand], [createNewTab] and
    [closeTab]) and of the [/api/execute] result shape served by
    [src/index.tsx].

    Conventions.
    - A JavaScript string is a [string] holding its UTF-8 bytes.
    - React state cells ([useState]) and the [abortControllerRef] cell are the
      fields of one record [State]; a functional update
      [setSessions(prev => f prev)] is the update [f] applied to the current
      field.
    - An [async] function is cut at its [await]: the part before it runs when
      the handler is called, the part after it is a continuation ([Pending])
      that holds the variables the closure captured and runs when the request
      settles.
    - A handler reads the state cells through the closure of the render
      that created it. The steps of a run call the handlers of the render
      that shows the current state. [createNewTab] and [closeTab] read
      [sessions] both through the closure and through a functional update,
      so they take the rendered state as an argument of its own.
    - What the platform supplies ([Date.now], the outcome of [fetch], the
      contents of [localStorage]) is an input of the corresponding step. *)

From Stdlib Require Import ZArith NArith Ascii String DecimalString DecimalN.
From stdpp Require Import base list strings.

Local Open Scope string_scope.
Set Warnings "-register-all".

(** ** JavaScript string primitives *)

Module JsString.

Definition code (c : ascii) : N := N_of_ascii c.

(** White space and line terminators of one UTF-8 byte:
    TAB, LF, VT, FF, CR, SP. *)
Definition ws1 (c : ascii) : bool :=
  let n := code c in ((9 <=? n)%N && (n <=? 13)%N) || (n =? 32)%N.

(** U+00A0, encoded on two bytes. *)
Definition ws2 (a b : ascii) : bool :=
  (code a =? 194)%N && (code b =? 160)%N.

(** U+1680, U+2000..U+200A, U+2028, U+2029, U+202F, U+205F, U+3000 and
    U+FEFF, encoded on three bytes. *)
Definition ws3 (a b c : ascii) : bool :=
  let '(x, y, z) := (code a, code b, code c) in
  ((x =? 225) && (y =? 154) && (z =? 128))%N
  || ((x =? 226) && (y =? 128)
      && (((128 <=? z) && (z <=? 138)) || (z =? 168) || (z =? 169) || (z =? 175)))%N
  || ((x =? 226) && (y =? 129) && (z =? 159))%N
  || ((x =? 227) && (y =? 128) && (z =? 128))%N
  || ((x =? 239) && (y =? 187) && (z =? 191))%N.

(** Strips leading white space; [w2] and [w3] recognise the two- and
    three-byte characters in the order the bytes are met. *)
Fixpoint strip (w2 : ascii -> ascii -> bool) (w3 : ascii -> ascii -> ascii -> bool)
    (s : string) : string :=
  match s with
  | EmptyString => EmptyString
  | String a r =>
      if ws1 a then strip w2 w3 r else
      match r with
      | EmptyString => s
      | String b r2 =>
          if w2 a b then strip w2 w3 r2 else
          match r2 with
          | EmptyString => s
          | String c r3 => if w3 a b c then strip w2 w3 r3 else s
          end
      end
  end.

Definition rev (s : string) : string :=
  string_of_list_ascii (List.rev (list_ascii_of_string s)).

Definition trimStart (s : string) : string := strip ws2 ws3 s.

Definition trimEnd (s : string) : string :=
  rev (strip (fun b a => ws2 a b) (fun c b a => ws3 a b c) (rev s)).

(** [String.prototype.trim]. *)
Definition trim (s : string) : string := trimEnd (trimStart s).

(** Truthiness of a string: every string but the empty one. *)
Definition truthy (s : string) : bool :=
  match s with EmptyString => false | String _ _ => true end.

(** Truthiness of an optional string field ([undefined] when absent). *)
Definition truthy_opt (o : option string) : bool :=
  match o with Some s => truthy s | None => false end.

(** [Number.prototype.toString] of a non-negative integer. *)
Definition of_N (n : N) : string := NilEmpty.string_of_uint (N.to_uint n).

Definition of_nat (n : nat) : string := of_N (N.of_nat n).

End JsString.

(** ** History Navigator: the [commandHistory] list *)

Module HistoryNavigator.

(** [[command, ...prev.filter(cmd => cmd !== command)].slice(0, 50)] *)
Definition push (command : string) (prev : list string) : list string :=
  take 50 (command :: filter (λ cmd, cmd ≠ command) prev).

(** The list after the commands [cmds] were submitted in that order,
    starting from the initial state [useState<string[]>([])]. *)
Definition after (cmds : list string) : list string :=
  fold_left (λ prev command, push command prev) cmds [].

(** What a well-formed command-history list is: unique values, at most 50. *)
Definition well_formed (prev : list string) : Prop :=
  NoDup prev ∧ (length prev <= 50)%nat.

End HistoryNavigator.

(** ** [JSON.parse] *)

Module Json.

Import JsString.

Inductive json : Type :=
| JNull
| JBool (b : bool)
| JNumber (literal : string)
| JString (s : string)
| JArray (elements : list json)
| JObject (members : list (string * json)).

Definition is_ws (c : ascii) : bool :=
  let n := code c in (n =? 32)%N || (n =? 9)%N || (n =? 10)%N || (n =? 13)%N.

Fixpoint skip_ws (s : string) : string :=
  match s with
  | String c r => if is_ws c then skip_ws r else s
  | EmptyString => EmptyString
  end.

(** [eat lit s] removes the literal [lit] from the front of [s]. *)
Fixpoint eat (lit s : string) : option string :=
  match lit, s with
  | EmptyString, _ => Some s
  | String a l, String b r => if Ascii.eqb a b then eat l r else None
  | String _ _, EmptyString => None
  end.

Definition is_digit (c : ascii) : bool :=
  let n := code c in (48 <=? n)%N && (n <=? 57)%N.

(** The longest prefix of digits, and what follows it. *)
Fixpoint digits (s : string) : string * string :=
  match s with
  | String c r =>
      if is_digit c then let '(d, k) := digits r in (String c d, k)
      else (EmptyString, s)
  | EmptyString => (EmptyString, EmptyString)
  end.

Definition digits1 (s : string) : option (string * string) :=
  match digits s with
  | (EmptyString, _) => None
  | (d, k) => Some (d, k)
  end.

(** number = [ "-" ] int [ frac ] [ exp ]; the literal is kept as text. *)
Definition parse_number (s : string) : option (string * string) :=
  let '(sign, s1) :=
    match s with
    | String c r => if (code c =? 45)%N then ("-", r) else ("", s)
    | EmptyString => ("", s)
    end in
  match s1 with
  | String c r =>
      if negb (is_digit c) then None else
      let '(int, s2) :=
        if (code c =? 48)%N then ("0", r) else digits s1 in
      let frac :=
        match s2 with
        | String d r2 =>
            if (code d =? 46)%N
            then match digits1 r2 with
                 | Some (f, k) => Some ("." +:+ f, k)
                 | None => None
                 end
            else Some ("", s2)
        | EmptyString => Some ("", s2)
        end in
      match frac with
      | None => None
      | Some (f, s3) =>
          match s3 with
          | String e r3 =>
              if (code e =? 101)%N || (code e =? 69)%N then
                let '(esign, r4) :=
                  match r3 with
                  | String g r5 =>
                      if (code g =? 43)%N || (code g =? 45)%N
                      then (String g "", r5) else ("", r3)
                  | EmptyString => ("", r3)
                  end in
                match digits1 r4 with
                | Some (x, k) => Some (sign +:+ int +:+ f +:+ String e esign +:+ x, k)
                | None => None
                end
              else Some (sign +:+ int +:+ f, s3)
          | EmptyString => Some (sign +:+ int +:+ f, s3)
          end
      end
  | EmptyString => None
  end.

Definition hex (c : ascii) : option N :=
  let n := code c in
  if (48 <=? n)%N && (n <=? 57)%N then Some (n - 48)%N
  else if (97 <=? n)%N && (n <=? 102)%N then Some (n - 87)%N
  else if (65 <=? n)%N && (n <=? 70)%N then Some (n - 55)%N
  else None.

Definition hex4 (a b c d : ascii) : option N :=
  match hex a, hex b, hex c, hex d with
  | Some x, Some y, Some z, Some w => Some (((x * 16 + y) * 16 + z) * 16 + w)%N
  | _, _, _, _ => None
  end.

(** One character of a string literal: a byte of the text, or the UTF-16
    code unit an escape sequence stands for. *)
Inductive char : Type := Raw (b : ascii) | Unit (u : N).

(** The code unit of a one-letter escape: the letter after the backslash
    is a quote, a backslash, a slash, or one of b, f, n, r, t. *)
Definition escape (e : ascii) : option N :=
  match code e with
  | 34%N => Some 34%N
  | 92%N => Some 92%N
  | 47%N => Some 47%N
  | 98%N => Some 8%N
  | 102%N => Some 12%N
  | 110%N => Some 10%N
  | 114%N => Some 13%N
  | 116%N => Some 9%N
  | _ => None
  end.

(** The characters of a string literal, read after its opening quote up to
    and including its closing quote. *)
Fixpoint parse_chars (s : string) (acc : list char) : option (list char * string) :=
  match s with
  | EmptyString => None
  | String c r =>
      if (code c =? 34)%N then Some (List.rev acc, r)
      else if (code c =? 92)%N then
        match r with
        | EmptyString => None
        | String e r1 =>
            if (code e =? 117)%N then
              match r1 with
              | String h1 (String h2 (String h3 (String h4 r2))) =>
                  match hex4 h1 h2 h3 h4 with
                  | Some u => parse_chars r2 (Unit u :: acc)
                  | None => None
                  end
              | _ => None
              end
            else
              match escape e with
              | Some u => parse_chars r1 (Unit u :: acc)
              | None => None
              end
        end
      else if (code c <? 32)%N then None
      else parse_chars r (Raw c :: acc)
  end.

Definition byte (n : N) : ascii := ascii_of_N n.

(** UTF-8 bytes of a code point (a lone surrogate is written on three
    bytes like any other code point below U+10000). *)
Definition utf8 (cp : N) : list ascii :=
  if (cp <? 128)%N then [byte cp]
  else if (cp <? 2048)%N then [byte (192 + cp / 64); byte (128 + cp mod 64)]
  else if (cp <? 65536)%N then
    [byte (224 + cp / 4096); byte (128 + (cp / 64) mod 64); byte (128 + cp mod 64)]
  else
    [byte (240 + cp / 262144); byte (128 + (cp / 4096) mod 64);
     byte (128 + (cp / 64) mod 64); byte (128 + cp mod 64)].

Definition is_high (u : N) : bool := (55296 <=? u)%N && (u <=? 56319)%N.
Definition is_low (u : N) : bool := (56320 <=? u)%N && (u <=? 57343)%N.

Fixpoint encode (cs : list char) : list ascii :=
  match cs with
  | [] => []
  | Raw b :: r => b :: encode r
  | Unit u :: r =>
      match r with
      | Unit v :: r' =>
          if is_high u && is_low v
          then utf8 (65536 + (u - 55296) * 1024 + (v - 56320)) ++ encode r'
          else utf8 u ++ encode r
      | _ => utf8 u ++ encode r
      end
  end.

Definition parse_string (s : string) : option (string * string) :=
  match parse_chars s [] with
  | Some (cs, r) => Some (string_of_list_ascii (encode cs), r)
  | None => None
  end.

(** Recursive descent over the value grammar. Every call either reads a
    character or is followed by a call that does, so a fuel of twice the
    length of the text is all the parser can use: with more fuel it returns
    the same ([parse_fuel_enough]). *)
Fixpoint parse_value (fuel : nat) (s : string) {struct fuel} : option (json * string) :=
  match fuel with
  | O => None
  | S f =>
      match skip_ws s with
      | EmptyString => None
      | String c r =>
          if (code c =? 123)%N then
            match skip_ws r with
            | EmptyString => None
            | String d r' =>
                if (code d =? 125)%N then Some (JObject [], r')
                else parse_members f (String d r') []
            end
          else if (code c =? 91)%N then
            match skip_ws r with
            | EmptyString => None
            | String d r' =>
                if (code d =? 93)%N then Some (JArray [], r')
                else parse_elements f (String d r') []
            end
          else if (code c =? 34)%N then
            match parse_string r with
            | Some (v, k) => Some (JString v, k)
            | None => None
            end
          else if (code c =? 116)%N then
            match eat "true" (String c r) with
            | Some k => Some (JBool true, k) | None => None end
          else if (code c =? 102)%N then
            match eat "false" (String c r) with
            | Some k => Some (JBool false, k) | None => None end
          else if (code c =? 110)%N then
            match eat "null" (String c r) with
            | Some k => Some (JNull, k) | None => None end
          else
            match parse_number (String c r) with
            | Some (lit, k) => Some (JNumber lit, k)
            | None => None
            end
      end
  end
with parse_members (fuel : nat) (s : string) (acc : list (string * json))
    {struct fuel} : option (json * string) :=
  match fuel with
  | O => None
  | S f =>
      match s with
      | EmptyString => None
      | String c r =>
          if negb (code c =? 34)%N then None else
          match parse_string r with
          | None => None
          | Some (key, r1) =>
              match skip_ws r1 with
              | EmptyString => None
              | String d r2 =>
                  if negb (code d =? 58)%N then None else
                  match parse_value f r2 with
                  | None => None
                  | Some (v, r3) =>
                      match skip_ws r3 with
                      | EmptyString => None
                      | String e r4 =>
                          if (code e =? 44)%N
                          then parse_members f (skip_ws r4) ((key, v) :: acc)
                          else if (code e =? 125)%N
                          then Some (JObject (List.rev ((key, v) :: acc)), r4)
                          else None
                      end
                  end
              end
          end
      end
  end
with parse_elements (fuel : nat) (s : string) (acc : list json)
    {struct fuel} : option (json * string) :=
  match fuel with
  | O => None
  | S f =>
      match parse_value f s with
      | None => None
      | Some (v, r) =>
          match skip_ws r with
          | EmptyString => None
          | String e r1 =>
              if (code e =? 44)%N then parse_elements f r1 (v :: acc)
              else if (code e =? 93)%N then Some (JArray (List.rev (v :: acc)), r1)
              else None
          end
      end
  end.

(** [JSON.parse text]: [None] stands for the [SyntaxError] it throws. *)
Definition parse (text : string) : option json :=
  match parse_value (2 * String.length text + 2) text with
  | Some (v, r) =>
      match skip_ws r with
      | EmptyString => Some v
      | String _ _ => None
      end
  | None => None
  end.

(** [o[key]] for an object: the last member of that name wins. *)
Fixpoint member (key : string) (ms : list (string * json)) : option json :=
  match ms with
  | [] => None
  | (k, v) :: r =>
      match member key r with
      | Some w => Some w
      | None => if String.eqb k key then Some v else None
      end
  end.

End Json.

(** ** The terminal [App] component *)

Module Terminal.

Import JsString.

(** *** Data model *)

Inductive EntryType : Type := Command | Output | Error.

Record TerminalEntry : Type := { type : EntryType; content : string }.

Record TerminalSession : Type :=
  { id : string; name : string; history : list TerminalEntry }.

(** The state cells of [App] that the lifecycle reads or writes.
    [controllers] is the heap of [AbortController] objects created so far
    (the [aborted] flag of each signal, by allocation index) and
    [abortControllerRef] is [abortControllerRef.current]. *)
Record State : Type := {
  sessions : list TerminalSession;
  activeSessionId : string;
  currentCommand : string;
  isLoading : bool;
  commandHistory : list string;
  historyIndex : Z;
  controllers : list bool;
  abortControllerRef : option nat
}.

(** The values given to [useState] and [useRef]. *)
Definition initial : State :=
  {| sessions := []; activeSessionId := ""; currentCommand := "";
     isLoading := false; commandHistory := []; historyIndex := (-1)%Z;
     controllers := []; abortControllerRef := None |}.

Definition setSessions (f : list TerminalSession -> list TerminalSession)
    (st : State) : State :=
  {| sessions := f (sessions st); activeSessionId := activeSessionId st;
     currentCommand := currentCommand st; isLoading := isLoading st;
     commandHistory := commandHistory st; historyIndex := historyIndex st;
     controllers := controllers st; abortControllerRef := abortControllerRef st |}.

Definition setActiveSessionId (v : string) (st : State) : State :=
  {| sessions := sessions st; activeSessionId := v;
     currentCommand := currentCommand st; isLoading := isLoading st;
     commandHistory := commandHistory st; historyIndex := historyIndex st;
     controllers := controllers st; abortControllerRef := abortControllerRef st |}.

Definition setCurrentCommand (v : string) (st : State) : State :=
  {| sessions := sessions st; activeSessionId := activeSessionId st;
     currentCommand := v; isLoading := isLoading st;
     commandHistory := commandHistory st; historyIndex := historyIndex st;
     controllers := controllers st; abortControllerRef := abortControllerRef st |}.

Definition setIsLoading (v : bool) (st : State) : State :=
  {| sessions := sessions st; activeSessionId := activeSessionId st;
     currentCommand := currentCommand st; isLoading := v;
     commandHistory := commandHistory st; historyIndex := historyIndex st;
     controllers := controllers st; abortControllerRef := abortControllerRef st |}.

Definition setCommandHistory (f : list string -> list string) (st : State) : State :=
  {| sessions := sessions st; activeSessionId := activeSessionId st;
     currentCommand := currentCommand st; isLoading := isLoading st;
     commandHistory := f (commandHistory st); historyIndex := historyIndex st;
     controllers := controllers st; abortControllerRef := abortControllerRef st |}.

Definition setHistoryIndex (v : Z) (st : State) : State :=
  {| sessions := sessions st; activeSessionId := activeSessionId st;
     currentCommand := currentCommand st; isLoading := isLoading st;
     commandHistory := commandHistory st; historyIndex := v;
     controllers := controllers st; abortControllerRef := abortControllerRef st |}.

Definition setControllers (f : list bool -> list bool) (st : State) : State :=
  {| sessions := sessions st; activeSessionId := activeSessionId st;
     currentCommand := currentCommand st; isLoading := isLoading st;
     commandHistory := commandHistory st; historyIndex := historyIndex st;
     controllers := f (controllers st); abortControllerRef := abortControllerRef st |}.

Definition setAbortControllerRef (v : option nat) (st : State) : State :=
  {| sessions := sessions st; activeSessionId := activeSessionId st;
     currentCommand := currentCommand st; isLoading := isLoading st;
     commandHistory := commandHistory st; historyIndex := historyIndex st;
     controllers := controllers st; abortControllerRef := v |}.

(** *** Restoring the sessions on mount *)

(** The two [localStorage] keys; [None] is the [null] that [getItem]
    returns for a key that was never written. *)
Record Storage : Type := {
  terminal_sessions : option string;
  active_terminal_tab : option string
}.

Definition as_string (v : option Json.json) : option string :=
  match v with Some (Json.JString s) => Some s | _ => None end.

Definition as_type (v : option Json.json) : option EntryType :=
  match as_string v with
  | Some s =>
      if decide (s = "command") then Some Command
      else if decide (s = "output") then Some Output
      else if decide (s = "error") then Some Error
      else None
  | None => None
  end.

Definition as_entry (v : Json.json) : option TerminalEntry :=
  match v with
  | Json.JObject ms =>
      match as_type (Json.member "type" ms), as_string (Json.member "content" ms) with
      | Some t, Some c => Some {| type := t; content := c |}
      | _, _ => None
      end
  | _ => None
  end.

Definition as_session (v : Json.json) : option TerminalSession :=
  match v with
  | Json.JObject ms =>
      match as_string (Json.member "id" ms), as_string (Json.member "name" ms),
            Json.member "history" ms with
      | Some i, Some n, Some (Json.JArray es) =>
          match mapM as_entry es with
          | Some h => Some {| id := i; name := n; history := h |}
          | None => None
          end
      | _, _, _ => None
      end
  | _ => None
  end.

(** The parsed value read at the type [TerminalSession[]] the component
    gives it; [None] when the value is not of that shape. *)
Definition as_sessions (v : Json.json) : option (list TerminalSession) :=
  match v with
  | Json.JArray l => mapM as_session l
  | _ => None
  end.

Inductive Restored : Type :=
| Mounted (st : State)           (* the effect ran to its end *)
| UncaughtSyntaxError            (* [JSON.parse] threw; nothing catches it *)
| IllTyped (v : Json.json).      (* parsed, but not a [TerminalSession[]] *)

(** The [else] branch of the effect: create the initial session. *)
Definition bootstrap (st : State) : State :=
  let initialSession := {| id := "1"; name := "Terminal 1"; history := [] |} in
  setActiveSessionId "1" (setSessions (λ _, [initialSession]) st).

(** The effect "Load sessions from localStorage on mount". *)
Definition loadSessions (ls : Storage) (st : State) : Restored :=
  let savedSessions := terminal_sessions ls in
  let savedActiveTab := active_terminal_tab ls in
  if truthy_opt savedSessions then
    match Json.parse (default "" savedSessions) with
    | None => UncaughtSyntaxError
    | Some v =>
        match as_sessions v with
        | None => IllTyped v
        | Some parsedSessions =>
            let st1 := setSessions (λ _, parsedSessions) st in
            if truthy_opt savedActiveTab
               && bool_decide (Exists (λ s, id s = default "" savedActiveTab) parsedSessions)
            then Mounted (setActiveSessionId (default "" savedActiveTab) st1)
            else
              match parsedSessions with
              | s :: _ => Mounted (setActiveSessionId (id s) st1)
              | [] => Mounted st1
              end
        end
    end
  else Mounted (bootstrap st).

(** *** Session store *)

Definition updateSessionHistory (sessionId : string) (newEntry : TerminalEntry)
    (st : State) : State :=
  setSessions (map (λ session,
    if decide (id session = sessionId)
    then {| id := id session; name := name session;
            history := history session ++ [newEntry] |}
    else session)) st.

Definition clearTerminal (st : State) : State :=
  setSessions (map (λ session,
    if decide (id session = activeSessionId st)
    then {| id := id session; name := name session; history := [] |}
    else session)) st.

(** [createNewTab], with the clock reading [Date.now()] as [now]. The
    handler reads [sessions.length] in [rendered], the state given to the
    render that created it, and appends to [prev], the collection as it is
    when the update runs. *)
Definition createNewTab (now : N) (rendered st : State) : State :=
  let newId := of_N now in
  let newSession :=
    {| id := newId;
       name := "Terminal " +:+ of_nat (length (sessions rendered) + 1);
       history := [] |} in
  setActiveSessionId newId (setSessions (λ prev, (prev ++ [newSession])%list) st).

(** [a || b] on strings. *)
Definition or_else (a b : string) : string := if truthy a then a else b.

(** [closeTab]. The guard, the comparison with [activeSessionId] and
    [remainingSessions] read [rendered], the state given to the render that
    created the handler; the functional update filters [prev]. *)
Definition closeTab (sessionId : string) (rendered st : State) : State :=
  if (length (sessions rendered) =? 1)%nat then st
  else
    let st1 := setSessions (filter (λ s, id s ≠ sessionId)) st in
    if decide (sessionId = activeSessionId rendered) then
      let remainingSessions := filter (λ s, id s ≠ sessionId) (sessions rendered) in
      setActiveSessionId
        (match remainingSessions with
         | s :: _ => or_else (id s) ""
         | [] => ""
         end) st1
    else st1.

(** A handler of the render that shows the state it acts on: the page has
    re-rendered since the state last changed. *)
Definition latest {A : Type} (handler : State -> State -> A) (st : State) : A :=
  handler st st.

(** *** Command lifecycle *)

(** The body of a response of [/api/execute], as [src/index.tsx] builds it:
    [{stdout, stderr, exitCode}] or [{error, exitCode}]. *)
Record ExecuteResult : Type := {
  stdout : option string;
  stderr : option string;
  error : option string;
  exitCode : option Z
}.

(** What [response.json()] settles to. *)
Inductive Body : Type :=
| Malformed (message : string)     (* rejects with that message *)
| Parsed (result : ExecuteResult).

(** What the execution service does with a request that is not aborted. *)
Inductive FetchOutcome : Type :=
| NetworkError (message : string)  (* [fetch] rejects *)
| Response (status : nat) (statusText : string) (body : Body).

(** [response.ok] *)
Definition ok (status : nat) : bool := (200 <=? status)%nat && (status <=? 299)%nat.

(** The continuation of [executeCommand] suspended at its [await]: the
    [activeSessionId] and [command] its closure captured, and the
    controller whose signal was handed to [fetch]. *)
Record Pending : Type := {
  captured_activeSessionId : string;
  captured_command : string;
  signal : nat
}.

(** [controller.abort()] *)
Definition abort (c : nat) (st : State) : State :=
  setControllers (λ h, <[c := true]> h) st.

Definition aborted (c : nat) (st : State) : bool :=
  default false (controllers st !! c).

Definition cancelCommand (st : State) : State :=
  let st1 :=
    match abortControllerRef st with
    | Some c => abort c st
    | None => st
    end in
  let st2 :=
    updateSessionHistory (activeSessionId st) {| type := Error; content := "^C" |} st1 in
  setCurrentCommand "" (setIsLoading false st2).

(** [executeCommand] up to its first [await]. The second component is the
    suspended continuation, [None] when the function returned before
    sending anything. *)
Definition executeCommand (command : string) (st : State) : State * option Pending :=
  if negb (truthy (trim command)) || negb (truthy (activeSessionId st)) then (st, None)
  else if decide (trim command = "clear") then
    (setCurrentCommand "" (clearTerminal st), None)
  else
    let st1 := setCommandHistory (HistoryNavigator.push command) st in
    let st2 := setHistoryIndex (-1) st1 in
    let st3 :=
      updateSessionHistory (activeSessionId st)
        {| type := Command; content := "$ " +:+ command |} st2 in
    let st4 := setIsLoading true (setCurrentCommand "" st3) in
    let c := length (controllers st4) in
    let st5 := setAbortControllerRef (Some c) (setControllers (λ h, (h ++ [false])%list) st4) in
    (st5, Some {| captured_activeSessionId := activeSessionId st;
                  captured_command := command;
                  signal := c |}).

(** An exception object: its [name] and [message]. *)
Record Thrown : Type := { error_name : string; error_message : string }.

(** The [try] block once the request settles: the state it leaves and what
    it threw, if anything. A request whose signal is aborted rejects with
    an exception named [AbortError], whatever the service did. *)
Definition try_block (p : Pending) (o : FetchOutcome) (st : State) : State * option Thrown :=
  let activeSessionId := captured_activeSessionId p in
  if aborted (signal p) st then
    (st, Some {| error_name := "AbortError"; error_message := "signal is aborted" |})
  else
    match o with
    | NetworkError message =>
        (st, Some {| error_name := "TypeError"; error_message := message |})
    | Response status statusText body =>
        if negb (ok status) then
          (st, Some {| error_name := "Error";
                       error_message := "HTTP " +:+ of_nat status +:+ ": " +:+ statusText |})
        else
          match body with
          | Malformed message =>
              (st, Some {| error_name := "SyntaxError"; error_message := message |})
          | Parsed result =>
              if truthy_opt (error result) then
                (updateSessionHistory activeSessionId
                   {| type := Error; content := default "" (error result) |} st, None)
              else if truthy_opt (stdout result) || truthy_opt (stderr result) then
                let st1 :=
                  if truthy_opt (stdout result) then
                    updateSessionHistory activeSessionId
                      {| type := Output; content := default "" (stdout result) |} st
                  else st in
                let st2 :=
                  if truthy_opt (stderr result) then
                    updateSessionHistory activeSessionId
                      {| type := Error; content := default "" (stderr result) |} st1
                  else st1 in
                (st2, None)
              else (st, None)
          end
    end.

(** [executeCommand] from its [await] to its end: the [catch] clause, then
    the two statements after the [try]. *)
Definition resume (p : Pending) (o : FetchOutcome) (st : State) : State :=
  let finish st := setAbortControllerRef None (setIsLoading false st) in
  match try_block p o st with
  | (st1, None) => finish st1
  | (st1, Some e) =>
      if decide (error_name e = "AbortError") then st1
      else
        finish (updateSessionHistory (captured_activeSessionId p)
                  {| type := Error;
                     content := "Failed to execute command: " +:+ error_message e |} st1)
  end.

(** *** Runs *)

(** The component together with the requests in flight. *)
Record World : Type := { app : State; inflight : list Pending }.

Inductive Event : Type :=
| Submit (command : string)        (* [executeCommand(command)] *)
| Cancel                           (* [cancelCommand()] *)
| SelectTab (sessionId : string)   (* [setActiveSessionId(session.id)] *)
| NewTab (now : N)                 (* [createNewTab()] of the latest render, at clock reading [now] *)
| CloseTab (sessionId : string)    (* [closeTab(sessionId)] of the latest render *)
| ClearScreen                      (* [clearTerminal()] *)
| Settle (k : nat) (o : FetchOutcome). (* the [k]-th request in flight settles *)

Definition on_app (f : State -> State) (w : World) : World :=
  {| app := f (app w); inflight := inflight w |}.

Definition step (w : World) (e : Event) : World :=
  match e with
  | Submit command =>
      let '(st, p) := executeCommand command (app w) in
      {| app := st;
         inflight := (inflight w ++ match p with Some p => [p] | None => [] end)%list |}
  | Cancel => on_app cancelCommand w
  | SelectTab sessionId => on_app (setActiveSessionId sessionId) w
  | NewTab now => on_app (latest (createNewTab now)) w
  | CloseTab sessionId => on_app (latest (closeTab sessionId)) w
  | ClearScreen => on_app clearTerminal w
  | Settle k o =>
      match inflight w !! k with
      | Some p => {| app := resume p o (app w); inflight := delete k (inflight w) |}
      | None => w
      end
  end.

Definition run (es : list Event) (w : World) : World := fold_left step es w.

(** A component with nothing in flight. *)
Definition idle (st : State) : World := {| app := st; inflight := [] |}.

(** *** Vocabulary of the statements *)

(** The collection where [entries] are appended, in that order, to the
    history of every session whose id is [sessionId]; the other sessions are
    left as they are. *)
Definition extend (sessionId : string) (entries : list TerminalEntry)
    (l : list TerminalSession) : list TerminalSession :=
  map (λ session,
    if decide (id session = sessionId)
    then {| id := id session; name := name session;
            history := history session ++ entries |}
    else session) l.

(** The Entries of one terminal outcome, after the words of the
    specification: one [error] Entry with the payload when the service
    reports an error; otherwise an [output] Entry for a non-empty stdout and
    a separate [error] Entry for a non-empty stderr; one [error] Entry with
    a normalised description for a transport error, a non-2xx status or a
    malformed response. *)
Definition outcome_entries (o : FetchOutcome) : list TerminalEntry :=
  let failed reason :=
    [{| type := Error; content := "Failed to execute command: " +:+ reason |}] in
  match o with
  | NetworkError message => failed message
  | Response status statusText body =>
      if ok status then
        match body with
        | Malformed message => failed message
        | Parsed result =>
            match error result with
            | Some (String a e) => [{| type := Error; content := String a e |}]
            | _ =>
                match stdout result with
                | Some (String a out) => [{| type := Output; content := String a out |}]
                | _ => []
                end ++
                match stderr result with
                | Some (String a err) => [{| type := Error; content := String a err |}]
                | _ => []
                end
            end
        end
      else failed ("HTTP " +:+ of_nat status +:+ ": " +:+ statusText)
  end.

(** The session that a [createNewTab] call adds when the render that created
    the handler shows [count] sessions and the clock reads [now]. *)
Definition new_tab (count : nat) (now : N) : TerminalSession :=
  {| id := of_N now; name := "Terminal " +:+ of_nat (count + 1); history := [] |}.

(** Successive [createNewTab] calls, each given as the clock reading it takes
    and the state its render was given. *)
Definition createNewTabs (calls : list (N * State)) (st : State) : State :=
  fold_left (λ st call, createNewTab (fst call) (snd call) st) calls st.

(** The sessions that successive [createNewTab] calls add to a collection of
    [count] sessions, one per clock reading, when the page re-renders after
    each call. *)
Fixpoint new_tabs (count : nat) (clocks : list N) : list TerminalSession :=
  match clocks with
  | [] => []
  | now :: rest =>
      {| id := of_N now; name := "Terminal " +:+ of_nat (count + 1); history := [] |}
      :: new_tabs (S count) rest
  end.

(** The collection where the history of every session whose id is
    [sessionId] is emptied; the other sessions are left as they are. *)
Definition cleared (sessionId : string) (l : list TerminalSession)
    : list TerminalSession :=
  map (λ session,
    if decide (id session = sessionId)
    then {| id := id session; name := name session; history := [] |}
    else session) l.

(** The Entry a submission appends, and the Entry a cancellation appends. *)
Definition command_entry (command : string) : TerminalEntry :=
  {| type := Command; content := "$ " +:+ command |}.

Definition cancel_entry : TerminalEntry := {| type := Error; content := "^C" |}.

(** The ids of a collection, in collection order. *)
Definition ids (l : list TerminalSession) : list string := map id l.

End Terminal.

(** ** The page: keys, clicks and the requests that come back *)

Module Ui.

Import JsString Terminal.

(** [s.length], the number of UTF-16 code units of a text held as UTF-8:
    one for each character of one to three bytes, two for each character of
    four bytes. *)
Fixpoint utf16_length (s : string) : nat :=
  match s with
  | EmptyString => 0
  | String c r =>
      (if (128 <=? code c)%N && (code c <? 192)%N then 0
       else if (240 <=? code c)%N then 2 else 1) + utf16_length r
  end.

(** The fields of the [KeyboardEvent] that [handleKeyDown] reads. *)
Record KeyboardEvent : Type := { ctrlKey : bool; key : string }.

(** [commandHistory[i] || ""] *)
Definition recalled (commandHistory : list string) (i : Z) : string :=
  if (i <? 0)%Z then ""
  else match commandHistory !! Z.to_nat i with
       | Some cmd => or_else cmd ""
       | None => ""
       end.

(** [handleKeyDown], with the text of [window.getSelection()] as
    [selection]. For Ctrl+V the handler only starts the clipboard read and
    returns; what the read later puts in the input is the input [Change]
    below. *)
Definition handleKeyDown (e : KeyboardEvent) (selection : string) (w : World) : World :=
  let st := app w in
  if ctrlKey e && bool_decide (key e = "v") then w
  else if ctrlKey e && bool_decide (key e = "c") then
    if (0 <? utf16_length selection)%nat then w
    else if isLoading st then on_app cancelCommand w
    else
      on_app (λ st,
        setCurrentCommand ""
          (updateSessionHistory (activeSessionId st)
             {| type := Command; content := "$ " +:+ currentCommand st +:+ "^C" |} st)) w
  else if ctrlKey e && bool_decide (key e = "l") then on_app clearTerminal w
  else if bool_decide (key e = "Enter") && negb (isLoading st) then
    step w (Submit (currentCommand st))
  else if bool_decide (key e = "ArrowUp") then
    if (0 <? length (commandHistory st))%nat then
      let newIndex :=
        Z.min (historyIndex st + 1) (Z.of_nat (length (commandHistory st)) - 1) in
      on_app (λ st,
        setCurrentCommand (recalled (commandHistory st) newIndex)
          (setHistoryIndex newIndex st)) w
    else w
  else if bool_decide (key e = "ArrowDown") then
    if (0 <? historyIndex st)%Z then
      let newIndex := (historyIndex st - 1)%Z in
      on_app (λ st,
        setCurrentCommand (recalled (commandHistory st) newIndex)
          (setHistoryIndex newIndex st)) w
    else if (historyIndex st =? 0)%Z then
      on_app (λ st, setCurrentCommand "" (setHistoryIndex (-1) st)) w
    else w
  else if negb (historyIndex st =? -1)%Z && (utf16_length (key e) =? 1)%nat then
    on_app (setHistoryIndex (-1)) w
  else w.

(** What happens to the mounted component. *)
Inductive Input : Type :=
| KeyDown (e : KeyboardEvent) (selection : string) (* [onKeyDown] of the input *)
| Change (value : string)      (* [onChange]; also what a paste leaves in the input *)
| ClickTab (i : nat)           (* click on the [i]-th tab of the tab bar *)
| ClickClose (i : nat)         (* click on the close button of the [i]-th tab *)
| ClickNew (now : N)           (* click on [+], at clock reading [now] *)
| Arrives (k : nat) (o : FetchOutcome). (* the [k]-th request in flight settles *)

(** The tab bar maps over [sessions]: a tab passes the id of its own session
    to the handlers, and the close buttons are rendered only when there is
    more than one session. *)
Definition react (w : World) (i : Input) : World :=
  match i with
  | KeyDown e selection => handleKeyDown e selection w
  | Change value => on_app (setCurrentCommand value) w
  | ClickTab i =>
      match sessions (app w) !! i with
      | Some session => step w (SelectTab (id session))
      | None => w
      end
  | ClickClose i =>
      if (1 <? length (sessions (app w)))%nat then
        match sessions (app w) !! i with
        | Some session => step w (CloseTab (id session))
        | None => w
        end
      else w
  | ClickNew now => step w (NewTab now)
  | Arrives k o => step w (Settle k o)
  end.

Definition interact (inputs : list Input) (w : World) : World :=
  fold_left react inputs w.

(** The requests in flight whose signal is not aborted. *)
Definition live (w : World) : list Pending :=
  filter (λ p, aborted (signal p) (app w) = false) (inflight w).

(** Every click on [+] in the run happens at a clock reading whose decimal
    text is not the id of a session at that time. *)
Fixpoint fresh_clocks (inputs : list Input) (w : World) : Prop :=
  match inputs with
  | [] => True
  | i :: rest =>
      match i with
      | ClickNew now => of_N now ∉ ids (sessions (app w))
      | _ => True
      end ∧ fresh_clocks rest (react w i)
  end.

(** The inputs that take Entries away: Ctrl+L, Enter on a text that trims
    to [clear], and the close button of a tab. *)
Definition erasing (i : Input) (w : World) : Prop :=
  match i with
  | KeyDown e _ =>
      (ctrlKey e = true ∧ key e = "l")
      ∨ (key e = "Enter" ∧ trim (currentCommand (app w)) = "clear")
  | ClickClose _ => True
  | _ => False
  end.

Fixpoint gentle (inputs : list Input) (w : World) : Prop :=
  match inputs with
  | [] => True
  | i :: rest => ¬ erasing i w ∧ gentle rest (react w i)
  end.

(** The handler calls that take Entries away: [clearTerminal], a submission
    whose text trims to [clear], and [closeTab]. *)
Definition clears (e : Event) : Prop :=
  match e with
  | ClearScreen | CloseTab _ => True
  | Submit command => trim command = "clear"
  | _ => False
  end.

(** [l'] has every session of [l] at its place, with the same id and name
    and with a history that starts with the history it has in [l]. *)
Definition grown (l l' : list TerminalSession) : Prop :=
  ∀ (i : nat) s, l !! i = Some s →
    ∃ es, l' !! i = Some {| id := id s; name := name s; history := history s ++ es |}.

(** The invariants of the data model: at least one session, unique ids, and
    an active id that is the id of a session. *)
Definition sessions_ok (st : State) : Prop :=
  sessions st ≠ [] ∧ NoDup (ids (sessions st)) ∧ activeSessionId st ∈ ids (sessions st).

(** The history cursor points at no selection or at an entry of a
    well-formed command-history list. *)
Definition cursor_ok (st : State) : Prop :=
  HistoryNavigator.well_formed (commandHistory st)
  ∧ (-1 <= historyIndex st < Z.of_nat (length (commandHistory st)))%Z.

(** The busy flag and the requests in flight agree: every request in flight
    holds a signal that was created; when the flag is down every one of them
    is aborted; when it is up exactly one is not, and it holds the signal of
    the controller in [abortControllerRef]. *)
Definition busy_ok (w : World) : Prop :=
  Forall (λ p, (signal p < length (controllers (app w)))%nat) (inflight w)
  ∧ ((isLoading (app w) = false ∧ live w = [])
     ∨ (isLoading (app w) = true
        ∧ ∃ p, live w = [p] ∧ abortControllerRef (app w) = Some (signal p))).

(** [sessions.find(s => s.id === activeSessionId)], the session the page
    shows. *)
Definition activeSession (st : State) : option TerminalSession :=
  List.find (λ s, bool_decide (id s = activeSessionId st)) (sessions st).

End Ui.

(** ** [JSON.stringify] and the two effects that save to [localStorage] *)

Module Persist.

Import JsString Terminal.

Definition dq : ascii := ascii_of_N 34.
Definition bs : ascii := ascii_of_N 92.

(** One lower-case hexadecimal digit. *)
Definition hex_digit (n : N) : ascii :=
  if (n <? 10)%N then ascii_of_N (48 + n) else ascii_of_N (87 + n).

(** The bytes [a b c] hold a surrogate code unit that is not part of a pair
    (a pair is held on four bytes). *)
Definition lone_surrogate (a b c : ascii) : bool :=
  (code a =? 237)%N && (160 <=? code b)%N && (code b <=? 191)%N
  && (128 <=? code c)%N && (code c <=? 191)%N.

(** The characters between the quotes of [JSON.stringify(s)]: the quote and
    the backslash are escaped, the control characters are written as
    [\b], [\f], [\n], [\r], [\t] or [\u00XX], a lone surrogate is
    written as [\uXXXX], and everything else is copied. *)
Fixpoint quote_chars (s : string) : string :=
  match s with
  | EmptyString => EmptyString
  | String c r =>
      let n := code c in
      if (n =? 34)%N then String bs (String dq (quote_chars r))
      else if (n =? 92)%N then String bs (String bs (quote_chars r))
      else if (n =? 8)%N then String bs (String "b" (quote_chars r))
      else if (n =? 12)%N then String bs (String "f" (quote_chars r))
      else if (n =? 10)%N then String bs (String "n" (quote_chars r))
      else if (n =? 13)%N then String bs (String "r" (quote_chars r))
      else if (n =? 9)%N then String bs (String "t" (quote_chars r))
      else if (n <? 32)%N then
        String bs (String "u" (String "0" (String "0"
          (String (hex_digit (n / 16)) (String (hex_digit (n mod 16)) (quote_chars r))))))
      else
        match r with
        | String b (String d r2) =>
            if lone_surrogate c b d then
              let u := (55296 + (code b - 160) * 64 + (code d - 128))%N in
              String bs (String "u" (String "d"
                (String (hex_digit ((u / 256) mod 16))
                   (String (hex_digit ((u / 16) mod 16))
                      (String (hex_digit (u mod 16)) (quote_chars r2))))))
            else String c (quote_chars r)
        | _ => String c (quote_chars r)
        end
  end.

(** [JSON.stringify] of a string. *)
Definition quote (s : string) : string :=
  String dq (quote_chars s +:+ String dq EmptyString).

(** The elements of an array or the members of an object, with commas. *)
Fixpoint join (parts : list string) : string :=
  match parts with
  | [] => EmptyString
  | [x] => x
  | x :: rest => x +:+ "," +:+ join rest
  end.

Definition type_text (t : EntryType) : string :=
  match t with
  | Command => "command"
  | Output => "output"
  | Error => "error"
  end.

(** [JSON.stringify] of an Entry, a session (their properties in the order
    the component creates them) and the collection. *)
Definition stringify_entry (e : TerminalEntry) : string :=
  "{" +:+ quote "type" +:+ ":" +:+ quote (type_text (type e)) +:+ ","
  +:+ quote "content" +:+ ":" +:+ quote (content e) +:+ "}".

Definition stringify_session (s : TerminalSession) : string :=
  "{" +:+ quote "id" +:+ ":" +:+ quote (id s) +:+ ","
  +:+ quote "name" +:+ ":" +:+ quote (name s) +:+ ","
  +:+ quote "history" +:+ ":"
  +:+ "[" +:+ join (map stringify_entry (history s)) +:+ "]" +:+ "}".

Definition stringify (l : list TerminalSession) : string :=
  "[" +:+ join (map stringify_session l) +:+ "]".

(** The effect "Save sessions to localStorage whenever they change". *)
Definition saveSessions (st : State) (ls : Storage) : Storage :=
  if (0 <? length (sessions st))%nat then
    {| terminal_sessions := Some (stringify (sessions st));
       active_terminal_tab := active_terminal_tab ls |}
  else ls.

(** The effect "Save active tab whenever it changes". *)
Definition saveActiveTab (st : State) (ls : Storage) : Storage :=
  if truthy (activeSessionId st) then
    {| terminal_sessions := terminal_sessions ls;
       active_terminal_tab := Some (activeSessionId st) |}
  else ls.

(** What the two effects leave in storage after a render. *)
Definition save (st : State) (ls : Storage) : Storage :=
  saveActiveTab st (saveSessions st ls).

(** A text without a lone surrogate. *)
Fixpoint plain (s : string) : bool :=
  match s with
  | EmptyString => true
  | String c r =>
      match r with
      | String b (String d _) => negb (lone_surrogate c b d)
      | _ => true
      end && plain r
  end.

Definition plain_entry (e : TerminalEntry) : bool := plain (content e).

Definition plain_session (s : TerminalSession) : bool :=
  plain (id s) && plain (name s) && forallb plain_entry (history s).

(** The JSON value of an Entry, a session and the collection. *)
Definition json_of_entry (e : TerminalEntry) : Json.json :=
  Json.JObject [("type", Json.JString (type_text (type e)));
                ("content", Json.JString (content e))].

Definition json_of_session (s : TerminalSession) : Json.json :=
  Json.JObject [("id", Json.JString (id s)); ("name", Json.JString (name s));
                ("history", Json.JArray (map json_of_entry (history s)))].

Definition json_of_sessions (l : list TerminalSession) : Json.json :=
  Json.JArray (map json_of_session l).

(** The bytes that [quote_chars] writes as an escape of one code unit. *)
Definition escaped (c : ascii) : bool :=
  (code c =? 34)%N || (code c =? 92)%N || (code c <? 32)%N.

(** What the parser reads back from the quoted form of a plain text. *)
Fixpoint chars_of (s : string) : list Json.char :=
  match s with
  | EmptyString => []
  | String c r => (if escaped c then Json.Unit (code c) else Json.Raw c) :: chars_of r
  end.

End Persist.

(** ** The [/api/execute] route and the request the component sends to it *)

Module Server.

Import JsString Terminal Persist.

(** What awaiting the shell run of [zsh -c command] gives: the promise
    resolves with the output and the exit code, or rejects with an error
    that has a message and, for a command that failed, its [stderr] and exit
    code. *)
Inductive ShellOutcome : Type :=
| Exited (out err : string) (code : Z)
| Threw (err : option string) (message : string) (code : option Z).

(** [x || d] on an optional number. *)
Definition number_or (x : option Z) (d : Z) : Z :=
  match x with
  | Some n => if (n =? 0)%Z then d else n
  | None => d
  end.

(** The [command] property of the parsed body, when it is a string. *)
Definition command_of (v : Json.json) : option string :=
  match v with
  | Json.JObject ms => as_string (Json.member "command" ms)
  | _ => None
  end.

Inductive Reply : Type :=
| Replied (status : nat) (body : ExecuteResult)
| NoCommand (v : Json.json).  (* the body has no [command] that is a string *)

(** The [POST] handler of [/api/execute], with the shell run as [shell]. A
    body that does not parse, or that is [null] (which cannot be
    destructured), ends in the outer [catch]. *)
Definition execute (shell : string -> ShellOutcome) (body : string) : Reply :=
  let invalid :=
    Replied 400 {| stdout := None; stderr := None; error := Some "Invalid JSON";
                   exitCode := None |} in
  match Json.parse body with
  | None => invalid
  | Some Json.JNull => invalid
  | Some v =>
      match command_of v with
      | None => NoCommand v
      | Some command =>
          match shell command with
          | Exited out err code =>
              Replied 200 {| stdout := Some out; stderr := Some err; error := None;
                             exitCode := Some code |}
          | Threw err message code =>
              Replied 200 {| stdout := None; stderr := None;
                             error := Some (or_else (default "" err) message);
                             exitCode := Some (number_or code 1) |}
          end
      end
  end.

(** [JSON.stringify({ command })], the body of the request of
    [executeCommand]. *)
Definition request_body (command : string) : string :=
  "{" +:+ quote "command" +:+ ":" +:+ quote command +:+ "}".

(** The Entries the page shows for a shell run: the output then the errors
    of a command that exited, one error Entry for a command that failed. *)
Definition shown (r : ShellOutcome) : list TerminalEntry :=
  match r with
  | Exited out err _ =>
      match out with
      | EmptyString => []
      | String _ _ => [{| type := Output; content := out |}]
      end ++
      match err with
      | EmptyString => []
      | String _ _ => [{| type := Error; content := err |}]
      end
  | Threw err message _ =>
      match err with
      | Some (String a e) => [{| type := Error; content := String a e |}]
      | _ =>
          match message with
          | EmptyString => []
          | String _ _ => [{| type := Error; content := message |}]
          end
      end
  end.

End Server.

(** * Properties *)

(** ** The parser uses all the fuel it needs *)

Section JsonFacts.

Import Json.

Local Abbreviation len := String.length.

Lemma skip_ws_length (s : string) : (len (skip_ws s) <= len s)%nat.
Proof.
  induction s as [|c r IH]; simpl; [lia|]. destruct (is_ws c); simpl; lia.
Qed.

Lemma eat_length (lit s k : string) :
  eat lit s = Some k → len s = (len lit + len k)%nat.
Proof.
  revert s. induction lit as [|a l IH]; intros [|b r] H; simpl in H; simplify_eq; try done.
  destruct (Ascii.eqb a b); [|done]. apply IH in H. simpl. lia.
Qed.

Lemma digits_length (s d k : string) : digits s = (d, k) → (len k <= len s)%nat.
Proof.
  revert d k. induction s as [|c r IH]; intros d k H; simpl in H.
  - by simplify_eq.
  - destruct (is_digit c).
    + destruct (digits r) as [d' k'] eqn:Hr. simplify_eq. specialize (IH _ _ eq_refl).
      simpl. lia.
    + by simplify_eq.
Qed.

Lemma digits1_length (s d k : string) : digits1 s = Some (d, k) → (len k <= len s)%nat.
Proof.
  unfold digits1. destruct (digits s) as [d' k'] eqn:H. intros H'.
  apply digits_length in H. destruct d'; by simplify_eq.
Qed.

Lemma digits_length_digit (c : ascii) (r d k : string) :
  negb (is_digit c) = false → digits (String c r) = (d, k) → (len k <= len r)%nat.
Proof.
  intros Hc H. apply negb_false_iff in Hc. simpl in H. rewrite Hc in H.
  destruct (digits r) as [d' k'] eqn:Hr. simplify_eq. by apply digits_length in Hr.
Qed.

Lemma parse_number_length (s lit k : string) :
  parse_number s = Some (lit, k) → (len k < len s)%nat.
Proof.
  unfold parse_number. intros H.
  repeat case_match; simplify_eq;
    repeat match goal with
           | Hc : negb (is_digit ?c) = false, H : digits (String ?c _) = (_, _) |- _ =>
               apply (digits_length_digit _ _ _ _ Hc) in H
           | H : digits1 _ = Some (_, _) |- _ => apply digits1_length in H
           end;
    simpl in *; lia.
Qed.

Lemma parse_chars_length (n : nat) (s : string) (acc cs : list char) (r : string) :
  (len s <= n)%nat → parse_chars s acc = Some (cs, r) → (len r < len s)%nat.
Proof.
  revert s acc. induction n as [|n IH]; intros s acc Hn H.
  - destruct s; [done|simpl in Hn; lia].
  - destruct s as [|c s1]; [done|]. simpl in Hn, H.
    repeat case_match; simplify_eq; simpl in *; try lia;
      (apply IH in H; simpl in *; lia).
Qed.

Lemma parse_string_length (s v k : string) :
  parse_string s = Some (v, k) → (len k < len s)%nat.
Proof.
  unfold parse_string. destruct (parse_chars s []) as [[cs r]|] eqn:H; [|done].
  intros; simplify_eq. by eapply parse_chars_length.
Qed.

Ltac lengths IHv IHm IHe :=
  repeat match goal with
         | H : skip_ws ?x = _ |- _ =>
             let L := fresh "L" in
             pose proof (skip_ws_length x) as L; rewrite H in L; clear H
         | H : eat _ _ = Some _ |- _ => apply eat_length in H
         | H : parse_string _ = Some _ |- _ => apply parse_string_length in H
         | H : parse_number _ = Some _ |- _ => apply parse_number_length in H
         | H : parse_value _ _ = Some _ |- _ => apply IHv in H
         | H : parse_members _ _ _ = Some _ |- _ => apply IHm in H
         | H : parse_elements _ _ _ = Some _ |- _ => apply IHe in H
         | H : (_ < len (skip_ws ?x))%nat |- _ =>
             apply (λ h, Nat.lt_le_trans _ _ _ h (skip_ws_length x)) in H
         end.

(** Whatever is parsed takes at least one character. *)
Lemma parse_consumes (fuel : nat) :
  (∀ s v r, parse_value fuel s = Some (v, r) → (len r < len s)%nat)
  ∧ (∀ s acc v r, parse_members fuel s acc = Some (v, r) → (len r < len s)%nat)
  ∧ (∀ s acc v r, parse_elements fuel s acc = Some (v, r) → (len r < len s)%nat).
Proof.
  induction fuel as [|f (IHv & IHm & IHe)]; [by repeat split|].
  split; [|split].
  - intros s v r H. cbn [parse_value] in H.
    repeat case_match; simplify_eq; lengths IHv IHm IHe; cbn [String.length] in *; lia.
  - intros s acc v r H. cbn [parse_members] in H.
    repeat case_match; simplify_eq; lengths IHv IHm IHe; cbn [String.length] in *; lia.
  - intros s acc v r H. cbn [parse_elements] in H.
    repeat case_match; simplify_eq; lengths IHv IHm IHe; cbn [String.length] in *; lia.
Qed.

(** Above the bound the result no longer depends on the fuel. *)
Lemma parse_fuel_irrelevant (f1 : nat) :
  (∀ f2 s, (2 * len s + 2 <= f1)%nat → (2 * len s + 2 <= f2)%nat →
     parse_value f1 s = parse_value f2 s)
  ∧ (∀ f2 s acc, (2 * len s + 3 <= f1)%nat → (2 * len s + 3 <= f2)%nat →
       parse_members f1 s acc = parse_members f2 s acc)
  ∧ (∀ f2 s acc, (2 * len s + 3 <= f1)%nat → (2 * len s + 3 <= f2)%nat →
       parse_elements f1 s acc = parse_elements f2 s acc).
Proof.
  induction f1 as [|f1 (IHv & IHm & IHe)]; [repeat split; intros; lia|].
  split; [|split].
  - intros [|f2] s H1 H2; [lia|]. cbn [parse_value].
    pose proof (skip_ws_length s) as Ls.
    destruct (skip_ws s) as [|c r]; [done|]. cbn [String.length] in Ls.
    pose proof (skip_ws_length r) as Lr.
    destruct (_ =? 123)%N.
    { destruct (skip_ws r) as [|d r']; [done|]. destruct (_ =? _)%N; [done|].
      apply IHm; cbn [String.length] in *; lia. }
    destruct (_ =? 91)%N; [|done].
    destruct (skip_ws r) as [|d r']; [done|]. destruct (_ =? _)%N; [done|].
    apply IHe; cbn [String.length] in *; lia.
  - intros [|f2] s acc H1 H2; [lia|]. cbn [parse_members].
    destruct s as [|c r]; [done|]. destruct (negb _); [done|].
    destruct (parse_string r) as [[key r1]|] eqn:Hkey; [|done].
    apply parse_string_length in Hkey.
    pose proof (skip_ws_length r1) as L1.
    destruct (skip_ws r1) as [|d r2]; [done|]. destruct (negb _); [done|].
    cbn [String.length] in *. rewrite (IHv f2 r2) by lia.
    destruct (parse_value f2 r2) as [[v r3]|] eqn:Hv; [|done].
    apply (parse_consumes f2) in Hv.
    pose proof (skip_ws_length r3) as L3.
    destruct (skip_ws r3) as [|e r4]; [done|]. cbn [String.length] in L3.
    pose proof (skip_ws_length r4) as L4.
    destruct (_ =? 44)%N; [|done].
    apply IHm; lia.
  - intros [|f2] s acc H1 H2; [lia|]. cbn [parse_elements].
    rewrite (IHv f2 s) by lia.
    destruct (parse_value f2 s) as [[v r]|] eqn:Hv; [|done].
    apply (parse_consumes f2) in Hv.
    pose proof (skip_ws_length r) as L.
    destruct (skip_ws r) as [|e r1]; [done|]. cbn [String.length] in L.
    destruct (_ =? 44)%N; [|done].
    apply IHe; lia.
Qed.

(** [parse] gives the fuelled parser all the fuel it can use: with any
    larger fuel the parser returns the same. *)
Lemma parse_fuel_enough (text : string) (fuel : nat) :
  (2 * len text + 2 <= fuel)%nat →
  parse_value fuel text = parse_value (2 * len text + 2) text.
Proof. intros H. by apply parse_fuel_irrelevant. Qed.

End JsonFacts.

(** ** History Navigator *)

Section HistoryNavigatorFacts.

Import HistoryNavigator.

Implicit Types (command : string) (prev : list string).

Lemma push_unfold command prev :
  push command prev = command :: take 49 (filter (λ cmd, cmd ≠ command) prev).
Proof. reflexivity. Qed.

Lemma filter_absent command prev :
  command ∉ prev → filter (λ cmd, cmd ≠ command) prev = prev.
Proof.
  induction prev as [|x prev IH]; intros Hnot; [done|].
  apply not_elem_of_cons in Hnot as [Hx Hrest].
  rewrite filter_cons_True by congruence.
  by rewrite IH.
Qed.

Lemma filter_present_length command prev :
  NoDup prev → command ∈ prev →
  S (length (filter (λ cmd, cmd ≠ command) prev)) = length prev.
Proof.
  induction prev as [|x prev IH]; intros Hnd Hin.
  - by apply elem_of_nil in Hin.
  - apply NoDup_cons in Hnd as [Hx Hnd].
    destruct (decide (x = command)) as [->|Hne].
    + rewrite filter_cons_False by (intros H; by apply H).
      by rewrite filter_absent.
    + rewrite filter_cons_True by done.
      apply elem_of_cons in Hin as [->|Hin]; [done|].
      simpl. by rewrite IH.
Qed.

Lemma push_length command prev : (length (push command prev) <= 50)%nat.
Proof. unfold push. rewrite length_take. lia. Qed.

Lemma push_NoDup command prev : NoDup prev → NoDup (push command prev).
Proof.
  intros Hnd. rewrite push_unfold. apply NoDup_cons. split.
  - intros Hin. eapply elem_of_sublist in Hin; [|apply sublist_take].
    apply list_elem_of_filter in Hin as [Hne _]. by apply Hne.
  - eapply sublist_NoDup; [|apply sublist_take]. by apply NoDup_filter.
Qed.

Lemma push_well_formed command prev :
  well_formed prev → well_formed (push command prev).
Proof. intros [Hnd _]. split; [by apply push_NoDup | apply push_length]. Qed.

Lemma fold_push_well_formed (cmds : list string) prev :
  well_formed prev →
  well_formed (fold_left (λ prev command, push command prev) cmds prev).
Proof.
  revert prev. induction cmds as [|c cmds IH]; intros prev Hwf; [done|].
  simpl. by apply IH, push_well_formed.
Qed.

(** Every list the component can hold is well formed. *)
Lemma after_well_formed (cmds : list string) : well_formed (after cmds).
Proof. apply fold_push_well_formed. split; [constructor | simpl; lia]. Qed.

(** C7. In every state the command-history list can reach (the list after
    any sequence of submissions) and for every pushed command: the command
    is put at the front, followed by the other entries in their order; no
    earlier occurrence of it remains; the values stay unique and at most
    50; pushing a command that is already in the list keeps the length
    and only moves it to the front; pushing a new one drops whatever does
    not fit in the first 50 places, that is the oldest entry of a full
    list. *)
Theorem push_moves_to_front_and_caps (cmds : list string) command :
  let prev := after cmds in
  let next := push command prev in
  next = command :: take 49 (filter (λ cmd, cmd ≠ command) prev)
  ∧ (command ∉ take 49 (filter (λ cmd, cmd ≠ command) prev))
  ∧ NoDup next
  ∧ (length next <= 50)%nat
  ∧ (command ∈ prev →
       length next = length prev
       ∧ next = command :: filter (λ cmd, cmd ≠ command) prev)
  ∧ (command ∉ prev → next = take 50 (command :: prev))
  ∧ (command ∉ prev → length prev = 50%nat →
       next = command :: removelast prev).
Proof.
  intros prev next.
  destruct (after_well_formed cmds) as [Hnd Hlen]. fold prev in Hnd, Hlen.
  assert (Hnext : NoDup next) by (by apply push_NoDup).
  split; [done|]. split.
  { subst next. rewrite push_unfold in Hnext. by apply NoDup_cons in Hnext as [? _]. }
  split; [done|]. split; [apply push_length|]. split; [|split].
  - intros Hin.
    pose proof (filter_present_length command prev Hnd Hin) as Hf.
    assert (Htake : take 49 (filter (λ cmd, cmd ≠ command) prev)
                    = filter (λ cmd, cmd ≠ command) prev)
      by (apply take_ge; lia).
    subst next. rewrite push_unfold, Htake. split; [simpl; lia | done].
  - intros Hnot. subst next. unfold push. by rewrite filter_absent.
  - intros Hnot Hfull. subst next. rewrite push_unfold, filter_absent by done.
    f_equal. rewrite removelast_firstn_len, Hfull. done.
Qed.

Lemma push_moves_to_front_and_caps_witness :
  let prev := after ["ls"; "pwd"; "ls"] in
  "pwd" ∈ prev
  ∧ length (push "pwd" prev) = length prev
  ∧ push "pwd" prev = ["pwd"; "ls"].
Proof.
  intros prev. subst prev.
  assert (Hin : "pwd" ∈ after ["ls"; "pwd"; "ls"])
    by (vm_compute; apply list_elem_of_In; simpl; auto).
  destruct (push_moves_to_front_and_caps ["ls"; "pwd"; "ls"] "pwd")
    as (_ & _ & _ & _ & Hmove & _).
  destruct (Hmove Hin) as [Hlen Heq].
  split; [exact Hin|]. split; [exact Hlen|]. rewrite Heq. reflexivity.
Defined.

End HistoryNavigatorFacts.

(** ** Session store *)

Section SessionStoreFacts.

Import Terminal.

Implicit Types (l : list TerminalSession) (st : State) (sid : string).

Lemma truthy_true (s : string) : s ≠ "" → JsString.truthy s = true.
Proof. by destruct s. Qed.

Lemma or_else_empty (s : string) : or_else s "" = s.
Proof. by destruct s. Qed.

Lemma extend_nil sid l : extend sid [] l = l.
Proof.
  induction l as [|s l IH]; [done|]. simpl. rewrite IH. f_equal.
  case_decide; [|done]. destruct s; simpl. by rewrite app_nil_r.
Qed.

Lemma extend_extend sid (es1 es2 : list TerminalEntry) l :
  extend sid es2 (extend sid es1 l) = extend sid (es1 ++ es2) l.
Proof.
  induction l as [|s l IH]; [done|]. simpl. rewrite IH. f_equal.
  destruct (decide (id s = sid)) as [Heq|Hne]; simpl.
  - rewrite decide_True by done. by rewrite <- app_assoc.
  - by rewrite decide_False.
Qed.

Lemma length_extend sid es l : length (extend sid es l) = length l.
Proof. apply length_map. Qed.

Lemma ids_extend sid es l : ids (extend sid es l) = ids l.
Proof.
  induction l as [|s l IH]; [done|]. simpl. rewrite IH. f_equal. by case_decide.
Qed.

(** Sessions with another id are left as they are, at their place. *)
Lemma extend_others sid es l :
  filter (λ s, id s ≠ sid) (extend sid es l) = filter (λ s, id s ≠ sid) l.
Proof.
  induction l as [|s l IH]; [done|]. simpl.
  destruct (decide (id s = sid)) as [Heq|Hne].
  - rewrite !filter_cons_False by (simpl; intros H; by apply H). done.
  - rewrite !filter_cons_True by done. by rewrite IH.
Qed.

Lemma extend_keeps sid es l (other : string) :
  other ≠ sid →
  filter (λ s, id s = other) (extend sid es l) = filter (λ s, id s = other) l.
Proof.
  intros Hne. induction l as [|s l IH]; [done|]. simpl.
  destruct (decide (id s = sid)) as [Heq|Hns].
  - rewrite !filter_cons_False by (simpl; congruence). done.
  - destruct (decide (id s = other)).
    + rewrite !filter_cons_True by done. by rewrite IH.
    + rewrite !filter_cons_False by done. done.
Qed.

(** A session with the id gets the entries after its own. *)
Lemma extend_lookup sid es l (i : nat) s :
  l !! i = Some s → id s = sid →
  extend sid es l !! i
  = Some {| id := id s; name := name s; history := history s ++ es |}.
Proof.
  revert i. induction l as [|x l IH]; intros [|i] Hi Hid; simplify_eq/=.
  - by rewrite decide_True.
  - by apply IH.
Qed.

Lemma extend_lookup_other sid es l (i : nat) s :
  l !! i = Some s → id s ≠ sid → extend sid es l !! i = Some s.
Proof.
  revert i. induction l as [|x l IH]; intros [|i] Hi Hid; simplify_eq/=.
  - by rewrite decide_False.
  - by apply IH.
Qed.

Lemma sessions_updateSessionHistory sid e st :
  sessions (updateSessionHistory sid e st) = extend sid [e] (sessions st).
Proof. reflexivity. Qed.

End SessionStoreFacts.

(** ** Command lifecycle *)

Section CommandLifecycleFacts.

Import Terminal.

Implicit Types (st : State) (w : World) (p : Pending) (o : FetchOutcome).

Lemma run_cons e (es : list Event) w : run (e :: es) w = run es (step w e).
Proof. reflexivity. Qed.

Lemma run_nil w : run [] w = w.
Proof. reflexivity. Qed.

(** What [executeCommand] does with a command it sends. *)
Lemma executeCommand_sends (command : string) st :
  JsString.trim command ≠ "" → JsString.trim command ≠ "clear" →
  activeSessionId st ≠ "" →
  ∃ st',
    executeCommand command st
    = (st', Some {| captured_activeSessionId := activeSessionId st;
                    captured_command := command;
                    signal := length (controllers st) |})
    ∧ sessions st' = extend (activeSessionId st) [command_entry command] (sessions st)
    ∧ activeSessionId st' = activeSessionId st
    ∧ controllers st' = (controllers st ++ [false])%list
    ∧ abortControllerRef st' = Some (length (controllers st))
    ∧ isLoading st' = true
    ∧ commandHistory st' = HistoryNavigator.push command (commandHistory st).
Proof.
  intros Hne Hclear Hactive. unfold executeCommand.
  rewrite (truthy_true _ Hne), (truthy_true _ Hactive). simpl.
  rewrite decide_False by done.
  eexists. split; [reflexivity|]. by repeat split.
Qed.

Lemma cancelCommand_sessions st :
  sessions (cancelCommand st) = extend (activeSessionId st) [cancel_entry] (sessions st).
Proof. unfold cancelCommand. by destruct (abortControllerRef st). Qed.

Lemma cancelCommand_controllers st (c : nat) :
  abortControllerRef st = Some c →
  controllers (cancelCommand st) = <[c := true]> (controllers st).
Proof. intros H. unfold cancelCommand. by rewrite H. Qed.

Lemma cancelCommand_ref st : abortControllerRef (cancelCommand st) = abortControllerRef st.
Proof. unfold cancelCommand. by destruct (abortControllerRef st) eqn:H. Qed.

Lemma cancelCommand_active st : activeSessionId (cancelCommand st) = activeSessionId st.
Proof. unfold cancelCommand. by destruct (abortControllerRef st). Qed.

(** A request whose signal is aborted leaves no trace when it settles. *)
Lemma resume_aborted p o st : aborted (signal p) st = true → resume p o st = st.
Proof. intros H. unfold resume, try_block. rewrite H. by rewrite decide_True. Qed.

(** A request that was not aborted appends the Entries of its outcome to the
    session captured at submission, then clears the busy flag and the
    in-flight token. *)
Lemma resume_settled p o st :
  aborted (signal p) st = false →
  resume p o st
  = setAbortControllerRef None (setIsLoading false
      (setSessions (extend (captured_activeSessionId p) (outcome_entries o)) st)).
Proof.
  intros H. unfold resume, try_block. rewrite H.
  destruct o as [m | status text [m | r]]; simpl; [reflexivity | | ].
  - by destruct (ok status).
  - destruct (ok status); simpl; [|reflexivity].
    destruct (error r) as [[|a e]|], (stdout r) as [[|b out]|], (stderr r) as [[|c err]|];
      simpl; unfold setAbortControllerRef, setIsLoading, updateSessionHistory, setSessions;
      simpl; f_equal;
      first [ reflexivity
            | symmetry; apply extend_nil
            | apply (extend_extend _ [_] [_]) ].
Qed.

Lemma controllers_resume p o st : controllers (resume p o st) = controllers st.
Proof.
  destruct (aborted (signal p) st) eqn:H.
  - by rewrite resume_aborted.
  - by rewrite resume_settled.
Qed.

(** Once aborted, a signal stays aborted, whatever happens next. *)
Lemma aborted_step w e (c : nat) :
  aborted c (app w) = true → aborted c (app (step w e)) = true.
Proof.
  unfold aborted. intros H.
  assert (Hc : controllers (app w) !! c = Some true)
    by (destruct (controllers (app w) !! c) as [[]|]; naive_solver).
  destruct e as [command | | sid | now | sid | | k o]; simpl; try done.
  - unfold executeCommand.
    destruct (negb _ || negb _); simpl; [done|].
    case_decide; simpl; [done|].
    by rewrite (lookup_app_l_Some _ _ _ _ Hc).
  - unfold cancelCommand. destruct (abortControllerRef (app w)) as [c'|]; simpl; [|done].
    destruct (decide (c' = c)) as [->|Hne].
    + rewrite list_lookup_insert_eq; [done|]. by eapply lookup_lt_Some.
    + by rewrite list_lookup_insert_ne, Hc.
  - unfold latest, closeTab. destruct (_ =? _)%nat; [done|]. by case_decide.
  - destruct (inflight w !! k); simpl; [|done]. by rewrite controllers_resume.
Qed.

Lemma aborted_run (es : list Event) w (c : nat) :
  aborted c (app w) = true → aborted c (app (run es w)) = true.
Proof.
  revert w. induction es as [|e es IH]; intros w H; [done|].
  rewrite run_cons. by apply IH, aborted_step.
Qed.

(** A submission that is sent: the world right after it. *)
Lemma step_submit (command : string) w :
  JsString.trim command ≠ "" → JsString.trim command ≠ "clear" →
  activeSessionId (app w) ≠ "" →
  ∃ st',
    step w (Submit command)
    = {| app := st';
         inflight :=
           (inflight w ++
            [{| captured_activeSessionId := activeSessionId (app w);
                captured_command := command;
                signal := length (controllers (app w)) |}])%list |}
    ∧ sessions st'
      = extend (activeSessionId (app w)) [command_entry command] (sessions (app w))
    ∧ activeSessionId st' = activeSessionId (app w)
    ∧ controllers st' = (controllers (app w) ++ [false])%list
    ∧ abortControllerRef st' = Some (length (controllers (app w))).
Proof.
  intros Hne Hclear Hactive.
  destruct (executeCommand_sends command (app w) Hne Hclear Hactive)
    as (st' & Hexec & Hs & Ha & Hc & Hr & _).
  exists st'. simpl. rewrite Hexec. by repeat split.
Qed.

Lemma aborted_fresh (h : list bool) st :
  controllers st = (h ++ [false])%list → aborted (length h) st = false.
Proof. intros H. unfold aborted. rewrite H. by rewrite list_lookup_middle. Qed.

Lemma aborted_after_abort (h : list bool) st :
  controllers st = <[length h := true]> (h ++ [false])%list →
  aborted (length h) st = true.
Proof.
  intros H. unfold aborted. rewrite H.
  rewrite list_lookup_insert_eq; [done|]. rewrite length_app. simpl. lia.
Qed.

Lemma step_settle w (k : nat) p o :
  inflight w !! k = Some p →
  step w (Settle k o) = {| app := resume p o (app w); inflight := delete k (inflight w) |}.
Proof. intros H. simpl. by rewrite H. Qed.

(** The sessions after a submission that is sent and a request that settles
    without having been aborted. *)
Lemma submit_then_settle (command : string) w o :
  JsString.trim command ≠ "" → JsString.trim command ≠ "clear" →
  activeSessionId (app w) ≠ "" →
  sessions (app (run [Submit command; Settle (length (inflight w)) o] w))
  = extend (activeSessionId (app w)) (command_entry command :: outcome_entries o)
      (sessions (app w)).
Proof.
  intros Hne Hclear Hactive.
  destruct (step_submit command w Hne Hclear Hactive) as (st1 & Hstep & Hs & Ha & Hc & Hr).
  rewrite !run_cons, run_nil, Hstep.
  erewrite step_settle by (simpl; by apply list_lookup_middle).
  rewrite resume_settled by (simpl; by apply aborted_fresh).
  simpl. rewrite Hs. by rewrite (extend_extend _ [_]).
Qed.

End CommandLifecycleFacts.

(** ** Claims on the command lifecycle *)

Section CommandLifecycleClaims.

Import Terminal.

Implicit Types (st : State) (w : World) (p : Pending) (o : FetchOutcome).

(** C4. A command is submitted while session A is active, the active session
    is switched to another session B, and only then the request settles:
    the Entries of the outcome are appended, after the command Entry, to the
    history of A (the id captured at submission), and the sessions with the
    id of B are what they were before the submission. *)
Theorem result_routed_to_issuing_session (command B : string) w o :
  JsString.trim command ≠ "" → JsString.trim command ≠ "clear" →
  activeSessionId (app w) ≠ "" → B ≠ activeSessionId (app w) →
  let A := activeSessionId (app w) in
  let w' := run [Submit command; SelectTab B; Settle (length (inflight w)) o] w in
  activeSessionId (app w') = B
  ∧ sessions (app w')
    = extend A (command_entry command :: outcome_entries o) (sessions (app w))
  ∧ filter (λ s, id s = B) (sessions (app w'))
    = filter (λ s, id s = B) (sessions (app w)).
Proof.
  intros Hne Hclear Hactive HB A w'.
  destruct (step_submit command w Hne Hclear Hactive) as (st1 & Hstep & Hs & Ha & Hc & Hr).
  assert (Hw' : sessions (app w')
                = extend A (command_entry command :: outcome_entries o) (sessions (app w))
                ∧ activeSessionId (app w') = B).
  { subst w'. rewrite !run_cons, run_nil, Hstep.
    erewrite step_settle by (simpl; by apply list_lookup_middle).
    rewrite resume_settled by (simpl; by apply aborted_fresh).
    simpl. rewrite Hs. split; [|done].
    by rewrite (extend_extend _ [_]). }
  destruct Hw' as [Hsessions Hswitched].
  split; [done|]. split; [done|].
  rewrite Hsessions. by apply extend_keeps.
Qed.

Lemma result_routed_to_issuing_session_witness :
  let st := latest (createNewTab 2) (bootstrap initial) in
  let w := idle (setActiveSessionId "1" st) in
  let o := Response 200 "OK"
             (Parsed {| stdout := Some "a.txt"; stderr := None; error := None;
                        exitCode := Some 0%Z |}) in
  sessions (app (run [Submit "ls"; SelectTab "2"; Settle 0 o] w))
  = [ {| id := "1"; name := "Terminal 1";
         history := [ {| type := Command; content := "$ ls" |};
                      {| type := Output; content := "a.txt" |} ] |};
      {| id := "2"; name := "Terminal 2"; history := [] |} ].
Proof.
  intros st w o.
  assert (H1 : JsString.trim "ls" ≠ "") by (vm_compute; discriminate).
  assert (H2 : JsString.trim "ls" ≠ "clear") by (vm_compute; discriminate).
  assert (H3 : activeSessionId (app w) ≠ "") by (vm_compute; discriminate).
  assert (H4 : "2" ≠ activeSessionId (app w)) by (vm_compute; discriminate).
  destruct (result_routed_to_issuing_session "ls" "2" w o H1 H2 H3 H4) as (_ & Hs & _).
  etransitivity; [exact Hs|]. vm_compute. reflexivity.
Defined.

Lemma outcome_entries_shape o :
  Forall (λ e, type e ≠ Command) (outcome_entries o)
  ∧ (length (outcome_entries o) <= 2)%nat.
Proof.
  destruct o as [m | status text [m | r]]; simpl.
  - split; [by repeat constructor | lia].
  - destruct (ok status); (split; [by repeat constructor | simpl; lia]).
  - destruct (ok status); [|split; [by repeat constructor | simpl; lia]].
    destruct (error r) as [[|a e]|], (stdout r) as [[|b out]|], (stderr r) as [[|c err]|];
      (split; [by repeat constructor | simpl; lia]).
Qed.

(** The world after a submission that is sent and then cancelled while the
    issuing session is still the active one. *)
Lemma submit_then_cancel (command : string) w :
  JsString.trim command ≠ "" → JsString.trim command ≠ "clear" →
  activeSessionId (app w) ≠ "" →
  let w2 := run [Submit command; Cancel] w in
  sessions (app w2)
  = extend (activeSessionId (app w)) [command_entry command; cancel_entry]
      (sessions (app w))
  ∧ inflight w2
    = (inflight w ++
       [{| captured_activeSessionId := activeSessionId (app w);
           captured_command := command;
           signal := length (controllers (app w)) |}])%list
  ∧ aborted (length (controllers (app w))) (app w2) = true
  ∧ abortControllerRef (app w2) = Some (length (controllers (app w))).
Proof.
  intros Hne Hclear Hactive w2.
  destruct (step_submit command w Hne Hclear Hactive) as (st1 & Hstep & Hs & Ha & Hc & Hr).
  subst w2. rewrite !run_cons, run_nil, Hstep. cbn [step on_app app inflight].
  rewrite cancelCommand_sessions, Ha, Hs, (extend_extend _ [_] [_]).
  split; [done|]. split; [done|]. split.
  - apply aborted_after_abort. rewrite (cancelCommand_controllers _ _ Hr). by rewrite Hc.
  - by rewrite cancelCommand_ref.
Qed.

(** C3, amended. A command is submitted and cancelled at once, before the
    service responds and before anything else happens, so that the issuing
    session is still the active one. The history of the issuing session then
    ends with the command Entry and one error Entry [^C], and the other
    sessions are untouched. From then on, whatever else happens, the aborted
    request (the one that carries the signal created at submission) changes
    nothing when it settles, whatever the service answered. *)
Theorem cancel_appends_one_marker (command : string) w :
  JsString.trim command ≠ "" → JsString.trim command ≠ "clear" →
  activeSessionId (app w) ≠ "" →
  let A := activeSessionId (app w) in
  let w2 := run [Submit command; Cancel] w in
  sessions (app w2)
  = extend A [command_entry command; cancel_entry] (sessions (app w))
  ∧ (∀ o, sessions (app (run [Settle (length (inflight w)) o] w2)) = sessions (app w2))
  ∧ (∀ (es : list Event) (k : nat) p o,
       signal p = length (controllers (app w)) →
       inflight (run es w2) !! k = Some p →
       app (step (run es w2) (Settle k o)) = app (run es w2)).
Proof.
  intros Hne Hclear Hactive A w2.
  destruct (submit_then_cancel command w Hne Hclear Hactive) as (Hs2 & Hin & Hab & _).
  fold w2 in Hs2, Hin, Hab.
  split; [done|]. split.
  - intros o. rewrite run_cons, run_nil.
    erewrite step_settle by (rewrite Hin; by apply list_lookup_middle).
    simpl. by rewrite resume_aborted.
  - intros es k p o Hsig Hk. erewrite step_settle by done. simpl.
    apply resume_aborted. rewrite Hsig. by apply aborted_run.
Qed.

Lemma cancel_appends_one_marker_witness :
  let w := idle (bootstrap initial) in
  let o := Response 200 "OK"
             (Parsed {| stdout := Some "late"; stderr := None; error := None;
                        exitCode := Some 0%Z |}) in
  sessions (app (run [Settle 0 o] (run [Submit "sleep 9"; Cancel] w)))
  = [ {| id := "1"; name := "Terminal 1";
         history := [ {| type := Command; content := "$ sleep 9" |};
                      {| type := Error; content := "^C" |} ] |} ].
Proof.
  intros w o.
  assert (H1 : JsString.trim "sleep 9" ≠ "") by (vm_compute; discriminate).
  assert (H2 : JsString.trim "sleep 9" ≠ "clear") by (vm_compute; discriminate).
  assert (H3 : activeSessionId (app w) ≠ "") by (vm_compute; discriminate).
  destruct (cancel_appends_one_marker "sleep 9" w H1 H2 H3) as (Hs & Hlate & _).
  etransitivity; [exact (Hlate o)|]. etransitivity; [exact Hs|]. vm_compute. reflexivity.
Defined.

(** C3 as stated fails: when the active session is switched between the
    submission and the cancellation, the [^C] Entry goes to the session that
    is active at the cancellation; the history of the issuing session ends
    with the command Entry alone. *)
Lemma cancel_marker_goes_to_active_session :
  let st := setActiveSessionId "1" (latest (createNewTab 2) (bootstrap initial)) in
  let o := NetworkError "Failed to fetch" in
  sessions (app (run [Submit "sleep 9"; SelectTab "2"; Cancel; Settle 0 o] (idle st)))
  = [ {| id := "1"; name := "Terminal 1";
         history := [ {| type := Command; content := "$ sleep 9" |} ] |};
      {| id := "2"; name := "Terminal 2";
         history := [ {| type := Error; content := "^C" |} ] |} ].
Proof. vm_compute. reflexivity. Qed.

(** C2 fails on cancellation. After a submission, a cancellation and the
    settling of the aborted request, the lifecycle of the command is over
    (nothing in flight, busy flag cleared) and [abortControllerRef] still
    holds the aborted controller, whatever the service answered. Without the
    cancellation the same run ends with the reference cleared. *)
Theorem token_left_after_cancellation (o : FetchOutcome) :
  let w := idle (bootstrap initial) in
  let cancelled := run [Submit "sleep 60"; Cancel; Settle 0 o] w in
  let completed := run [Submit "sleep 60"; Settle 0 o] w in
  inflight cancelled = []
  ∧ isLoading (app cancelled) = false
  ∧ abortControllerRef (app cancelled) = Some 0%nat
  ∧ aborted 0 (app cancelled) = true
  ∧ inflight completed = []
  ∧ isLoading (app completed) = false
  ∧ abortControllerRef (app completed) = None.
Proof.
  intros w cancelled completed.
  repeat split; try (vm_compute; reflexivity).
  - subst completed. unfold run. simpl. by rewrite resume_settled.
  - subst completed. unfold run. simpl. by rewrite resume_settled.
Qed.

(** C10, amended. The service answers with a status from 200 to 299 and a
    body whose [error] field is a non-empty string: after the command Entry,
    the only Entry appended is one error Entry with that text, whatever
    [stdout] and [stderr] hold. The same holds for any request in flight
    that was not aborted, whenever it settles: that one error Entry is all
    that is appended, to the sessions with the id captured at submission. *)
Theorem error_field_takes_precedence (command e : string) w
    (status : nat) (statusText : string) (result : ExecuteResult)
    (w2 : World) (k : nat) p :
  JsString.trim command ≠ "" → JsString.trim command ≠ "clear" →
  activeSessionId (app w) ≠ "" →
  ok status = true → error result = Some e → e ≠ "" →
  let o := Response status statusText (Parsed result) in
  sessions (app (run [Submit command; Settle (length (inflight w)) o] w))
  = extend (activeSessionId (app w))
      [command_entry command; {| type := Error; content := e |}]
      (sessions (app w))
  ∧ (inflight w2 !! k = Some p → aborted (signal p) (app w2) = false →
     sessions (app (step w2 (Settle k o)))
     = extend (captured_activeSessionId p) [{| type := Error; content := e |}]
         (sessions (app w2))).
Proof.
  intros Hne Hclear Hactive Hok Herr He o.
  assert (Ho : outcome_entries o = [{| type := Error; content := e |}]).
  { subst o. simpl. rewrite Hok, Herr. by destruct e. }
  split.
  - rewrite (submit_then_settle command w o Hne Hclear Hactive). by rewrite Ho.
  - intros Hk Hlive. rewrite (step_settle _ _ _ _ Hk). cbn [app].
    rewrite resume_settled by done. by rewrite <- Ho.
Qed.

Lemma error_field_takes_precedence_witness :
  let w := idle (bootstrap initial) in
  let result := {| stdout := Some "partial"; stderr := Some "noise";
                   error := Some "zsh: command not found: foo";
                   exitCode := Some 127%Z |} in
  let o := Response 200 "OK" (Parsed result) in
  let w2 := run [Submit "foo"; NewTab 2] w in
  sessions (app (run [Submit "foo"; Settle 0 o] w))
  = [ {| id := "1"; name := "Terminal 1";
         history := [ {| type := Command; content := "$ foo" |};
                      {| type := Error; content := "zsh: command not found: foo" |} ] |} ]
  ∧ sessions (app (step w2 (Settle 0 o)))
    = [ {| id := "1"; name := "Terminal 1";
           history := [ {| type := Command; content := "$ foo" |};
                        {| type := Error; content := "zsh: command not found: foo" |} ] |};
        {| id := "2"; name := "Terminal 2"; history := [] |} ].
Proof.
  intros w result o w2.
  assert (H1 : JsString.trim "foo" ≠ "") by (vm_compute; discriminate).
  assert (H2 : JsString.trim "foo" ≠ "clear") by (vm_compute; discriminate).
  assert (H3 : activeSessionId (app w) ≠ "") by (vm_compute; discriminate).
  assert (H4 : "zsh: command not found: foo" ≠ "") by discriminate.
  destruct (error_field_takes_precedence "foo" _ w 200 "OK" result w2 0
              {| captured_activeSessionId := "1"; captured_command := "foo"; signal := 0 |}
              H1 H2 H3 eq_refl eq_refl H4) as [Hatonce Hlater].
  split.
  - etransitivity; [exact Hatonce|]. vm_compute. reflexivity.
  - etransitivity; [apply Hlater; vm_compute; reflexivity|]. vm_compute. reflexivity.
Defined.

(** C10 as stated fails. The route of [src/index.tsx] answers a request
    whose body is not JSON with status 400 and the body
    [{error: "Invalid JSON"}]: its error field is a non-empty string, yet
    the page never reads the body of a response whose status is not 2xx,
    and the Entry appended carries the status line, not the payload. *)
Lemma error_field_of_a_400_response_is_not_shown :
  let w := idle (bootstrap initial) in
  let result := {| stdout := None; stderr := None; error := Some "Invalid JSON";
                   exitCode := None |} in
  let o := Response 400 "Bad Request" (Parsed result) in
  error result = Some "Invalid JSON"
  ∧ sessions (app (run [Submit "ls"; Settle 0 o] w))
    = [ {| id := "1"; name := "Terminal 1";
           history := [ {| type := Command; content := "$ ls" |};
                        {| type := Error;
                           content := "Failed to execute command: HTTP 400: Bad Request" |} ] |} ]
  ∧ sessions (app (run [Submit "ls"; Settle 0 o] w))
    ≠ extend "1" [command_entry "ls"; {| type := Error; content := "Invalid JSON" |}]
        (sessions (app w)).
Proof.
  intros w result o. split; [reflexivity|]. split; [vm_compute; reflexivity|].
  vm_compute. discriminate.
Qed.

End CommandLifecycleClaims.

(** ** Claims on the session manager *)

Section SessionManagerClaims.

Import Terminal.

Implicit Types (l : list TerminalSession) (st : State) (w : World) (sid : string).

Lemma cleared_empties sid l :
  Forall (λ s, id s = sid → history s = []) (cleared sid l).
Proof.
  induction l as [|s l IH]; simpl; constructor; [|done].
  by case_decide.
Qed.

Lemma cleared_others sid l :
  filter (λ s, id s ≠ sid) (cleared sid l) = filter (λ s, id s ≠ sid) l.
Proof.
  induction l as [|s l IH]; [done|]. simpl.
  destruct (decide (id s = sid)) as [Heq|Hne].
  - rewrite !filter_cons_False by (simpl; intros H; by apply H). done.
  - rewrite !filter_cons_True by done. by rewrite IH.
Qed.

Lemma ids_cleared sid l : ids (cleared sid l) = ids l.
Proof.
  induction l as [|s l IH]; [done|]. simpl. rewrite IH. f_equal. by case_decide.
Qed.

(** C6. Text whose trimmed form is [clear] is submitted while a session is
    active: the history of the active session becomes empty, so no command
    Entry is appended; every other session is what it was; no request is
    created (nothing is put in flight, no controller is made, the busy flag
    is not raised) and the command-history list is left alone. *)
Theorem clear_is_local (text : string) w :
  JsString.trim text = "clear" → activeSessionId (app w) ≠ "" →
  let A := activeSessionId (app w) in
  let w' := run [Submit text] w in
  sessions (app w') = cleared A (sessions (app w))
  ∧ Forall (λ s, id s = A → history s = []) (sessions (app w'))
  ∧ filter (λ s, id s ≠ A) (sessions (app w')) = filter (λ s, id s ≠ A) (sessions (app w))
  ∧ ids (sessions (app w')) = ids (sessions (app w))
  ∧ inflight w' = inflight w
  ∧ controllers (app w') = controllers (app w)
  ∧ abortControllerRef (app w') = abortControllerRef (app w)
  ∧ isLoading (app w') = isLoading (app w)
  ∧ commandHistory (app w') = commandHistory (app w).
Proof.
  intros Hclear Hactive A w'.
  assert (Hexec : executeCommand text (app w)
                  = (setCurrentCommand "" (clearTerminal (app w)), None)).
  { unfold executeCommand. by rewrite Hclear, (truthy_true _ Hactive). }
  assert (Hw' : w' = {| app := setCurrentCommand "" (clearTerminal (app w));
                        inflight := inflight w |}).
  { subst w'. rewrite run_cons, run_nil. simpl. rewrite Hexec. by rewrite app_nil_r. }
  rewrite Hw'. simpl.
  change (map _ (sessions (app w))) with (cleared A (sessions (app w))).
  repeat split; auto using cleared_empties, cleared_others, ids_cleared.
Qed.

Lemma clear_is_local_witness :
  let st := updateSessionHistory "1" (command_entry "ls")
              (setActiveSessionId "1" (latest (createNewTab 2)
                 (updateSessionHistory "1" (command_entry "pwd") (bootstrap initial)))) in
  sessions (app (run [Submit "  clear "] (idle (setActiveSessionId "2" st))))
  = [ {| id := "1"; name := "Terminal 1";
         history := [command_entry "pwd"; command_entry "ls"] |};
      {| id := "2"; name := "Terminal 2"; history := [] |} ]
  ∧ sessions (app (run [Submit "  clear "] (idle st)))
    = [ {| id := "1"; name := "Terminal 1"; history := [] |};
        {| id := "2"; name := "Terminal 2"; history := [] |} ].
Proof.
  intros st.
  assert (H1 : JsString.trim "  clear " = "clear") by (vm_compute; reflexivity).
  assert (H2 : activeSessionId (app (idle (setActiveSessionId "2" st))) ≠ "")
    by (vm_compute; discriminate).
  assert (H3 : activeSessionId (app (idle st)) ≠ "") by (vm_compute; discriminate).
  split.
  - destruct (clear_is_local "  clear " _ H1 H2) as (Hs & _).
    etransitivity; [exact Hs|]. vm_compute. reflexivity.
  - destruct (clear_is_local "  clear " _ H1 H3) as (Hs & _).
    etransitivity; [exact Hs|]. vm_compute. reflexivity.
Defined.

Lemma filter_id_absent sid l :
  sid ∉ ids l → filter (λ s, id s ≠ sid) l = l.
Proof.
  induction l as [|s l IH]; intros Hnot; [done|].
  simpl in Hnot. apply not_elem_of_cons in Hnot as [Hs Hrest].
  rewrite filter_cons_True by congruence. by rewrite IH.
Qed.

Lemma filter_id_present_length sid l :
  NoDup (ids l) → sid ∈ ids l →
  S (length (filter (λ s, id s ≠ sid) l)) = length l.
Proof.
  induction l as [|s l IH]; simpl; intros Hnd Hin.
  - by apply elem_of_nil in Hin.
  - apply NoDup_cons in Hnd as [Hs Hnd].
    destruct (decide (id s = sid)) as [<-|Hne].
    + rewrite filter_cons_False by (intros H; by apply H).
      by rewrite filter_id_absent.
    + rewrite filter_cons_True by done.
      apply elem_of_cons in Hin as [->|Hin]; [done|].
      simpl. by rewrite IH.
Qed.

Lemma filter_id_gone sid l : sid ∉ ids (filter (λ s, id s ≠ sid) l).
Proof.
  induction l as [|s l IH]; simpl; [apply not_elem_of_nil|].
  destruct (decide (id s = sid)) as [Heq|Hne].
  - by rewrite filter_cons_False by (intros H; by apply H).
  - rewrite filter_cons_True by done. simpl.
    apply not_elem_of_cons. split; [congruence | done].
Qed.

Lemma filter_id_split sid l :
  (length (filter (λ s, id s ≠ sid) l) + length (filter (λ s, id s = sid) l))%nat
  = length l.
Proof.
  induction l as [|s l IH]; [done|].
  destruct (decide (id s = sid)) as [Heq|Hne].
  - rewrite filter_cons_False by (intros H; by apply H).
    rewrite filter_cons_True by done. simpl. lia.
  - rewrite filter_cons_True by done.
    rewrite filter_cons_False by done. simpl. lia.
Qed.

(** C8, amended. [closeTab] changes nothing when the render it is called
    from shows exactly one session. Otherwise it removes from the collection
    every session whose id is the given one and no other, the others keeping
    their order; when the given id is the active id of that render, the id
    of the first session that remains of the collection the render shows
    becomes active (the empty id when none remains), and otherwise the
    active id stays. On a collection of more than one session that the
    render shows as it is, with unique ids and the given id among them,
    exactly one session is removed, the length goes down by exactly one and,
    when the closed session was the active one, the first remaining session
    becomes active. *)
Theorem closeTab_removes_the_sessions_of_that_id (sessionId : string) (rendered st : State) :
  let st' := closeTab sessionId rendered st in
  (length (sessions rendered) = 1%nat → st' = st)
  ∧ (length (sessions rendered) ≠ 1%nat →
     sessions st' = filter (λ s, id s ≠ sessionId) (sessions st)
     ∧ (sessionId ∉ ids (sessions st'))
     ∧ (length (sessions st')
        + length (filter (λ s, id s = sessionId) (sessions st)))%nat
       = length (sessions st)
     ∧ (sessionId = activeSessionId rendered →
          activeSessionId st'
          = match filter (λ s, id s ≠ sessionId) (sessions rendered) with
            | s :: _ => id s
            | [] => ""
            end)
     ∧ (sessionId ≠ activeSessionId rendered → activeSessionId st' = activeSessionId st))
  ∧ (rendered = st → (1 < length (sessions st))%nat → NoDup (ids (sessions st)) →
     sessionId ∈ ids (sessions st) →
     S (length (sessions st')) = length (sessions st)
     ∧ (sessionId = activeSessionId st →
          ∃ s rest, sessions st' = s :: rest ∧ activeSessionId st' = id s)).
Proof.
  intros st'.
  assert (Hgeneral : length (sessions rendered) ≠ 1%nat →
    sessions st' = filter (λ s, id s ≠ sessionId) (sessions st)
    ∧ (sessionId = activeSessionId rendered →
         activeSessionId st'
         = match filter (λ s, id s ≠ sessionId) (sessions rendered) with
           | s :: _ => id s
           | [] => ""
           end)
    ∧ (sessionId ≠ activeSessionId rendered → activeSessionId st' = activeSessionId st)).
  { intros Hne. apply Nat.eqb_neq in Hne. subst st'. unfold closeTab. rewrite Hne.
    split; [by case_decide|]. split.
    - intros Hactive. rewrite decide_True by done.
      destruct (filter (λ s, id s ≠ sessionId) (sessions rendered)) as [|s rest];
        [done|]. simpl. apply or_else_empty.
    - intros Hother. by rewrite decide_False. }
  split; [|split].
  - intros Hone. subst st'. unfold closeTab. by rewrite Hone.
  - intros Hne. destruct (Hgeneral Hne) as (Hs & Hact & Hother).
    split; [done|]. rewrite Hs. split; [apply filter_id_gone|].
    split; [apply filter_id_split|]. by split.
  - intros -> Hmany Hnd Hin.
    destruct Hgeneral as (Hs & Hact & _); [lia|].
    pose proof (filter_id_present_length sessionId (sessions st) Hnd Hin) as Hlen.
    rewrite Hs. split; [done|].
    intros Hactive. rewrite (Hact Hactive).
    destruct (filter (λ s, id s ≠ sessionId) (sessions st)) as [|s rest];
      [simpl in Hlen; lia|].
    by exists s, rest.
Qed.

Lemma closeTab_removes_the_sessions_of_that_id_witness :
  let st := latest (createNewTab 3) (latest (createNewTab 2) (bootstrap initial)) in
  closeTab "1" (bootstrap initial) (bootstrap initial) = bootstrap initial
  ∧ sessions (closeTab "3" st st)
    = [ {| id := "1"; name := "Terminal 1"; history := [] |};
        {| id := "2"; name := "Terminal 2"; history := [] |} ]
  ∧ activeSessionId (closeTab "3" st st) = "1"
  ∧ S (length (sessions (closeTab "3" st st))) = length (sessions st)
  ∧ ∃ s rest, sessions (closeTab "3" st st) = s :: rest
              ∧ activeSessionId (closeTab "3" st st) = id s.
Proof.
  intros st.
  destruct (closeTab_removes_the_sessions_of_that_id "1" (bootstrap initial) (bootstrap initial))
    as (Hone & _ & _).
  destruct (closeTab_removes_the_sessions_of_that_id "3" st st) as (_ & Hmany & Hunique).
  assert (H0 : length (sessions st) ≠ 1%nat) by (vm_compute; lia).
  assert (H1 : (1 < length (sessions st))%nat) by (vm_compute; lia).
  assert (H2 : NoDup (ids (sessions st)))
    by (vm_compute; apply NoDup_ListNoDup; repeat constructor; simpl; intuition discriminate).
  assert (H3 : "3" ∈ ids (sessions st))
    by (vm_compute; apply list_elem_of_In; simpl; auto).
  destruct (Hmany H0) as (Hs & _ & _ & Hact & _).
  destruct (Hunique eq_refl H1 H2 H3) as (Hlen & Hfirst).
  split; [apply Hone; reflexivity|].
  split; [etransitivity; [exact Hs|]; vm_compute; reflexivity|].
  split; [etransitivity; [apply Hact; reflexivity|]; vm_compute; reflexivity|].
  split; [exact Hlen|]. apply Hfirst. reflexivity.
Defined.

(** C8 as stated fails. Two tabs created at the same clock reading share
    their id, and closing that id on the three sessions removes both: the
    length goes down by two. Closing an id that no session has removes
    nothing. And the guard reads the collection that the render shows: two
    closes called from one render of two sessions remove both, the second
    one acting on a collection of exactly one session. *)
Lemma closeTab_can_remove_two_or_none_or_the_last :
  let shared := app (run [NewTab 1700000000000; NewTab 1700000000000]
                       (idle (bootstrap initial))) in
  let two := latest (createNewTab 2) (bootstrap initial) in
  (ids (sessions shared) = ["1"; "1700000000000"; "1700000000000"]
   ∧ ids (sessions (latest (closeTab "1700000000000") shared)) = ["1"])
  ∧ (ids (sessions two) = ["1"; "2"]
     ∧ sessions (latest (closeTab "7") two) = sessions two)
  ∧ (ids (sessions (closeTab "1" two two)) = ["2"]
     ∧ sessions (closeTab "2" two (closeTab "1" two two)) = []
     ∧ closeTab "2" two (closeTab "1" two two) ≠ closeTab "1" two two).
Proof.
  intros shared two. repeat split; try (vm_compute; reflexivity).
  intros H. apply (f_equal (λ st, length (sessions st))) in H.
  vm_compute in H. discriminate.
Qed.

Lemma of_N_inj (m n : N) : JsString.of_N m = JsString.of_N n → m = n.
Proof.
  unfold JsString.of_N. intros H.
  apply DecimalN.Unsigned.to_uint_inj.
  apply (f_equal NilEmpty.uint_of_string) in H.
  rewrite !NilEmpty.usu in H. congruence.
Qed.

Lemma ids_new_tabs (count : nat) (clocks : list N) :
  ids (new_tabs count clocks) = map JsString.of_N clocks.
Proof.
  revert count. induction clocks as [|now rest IH]; intros count; [done|].
  simpl. by rewrite IH.
Qed.

Lemma run_new_tabs (clocks : list N) w :
  sessions (app (run (map NewTab clocks) w))
  = (sessions (app w) ++ new_tabs (length (sessions (app w))) clocks)%list
  ∧ activeSessionId (app (run (map NewTab clocks) w))
    = match last clocks with
      | Some now => JsString.of_N now
      | None => activeSessionId (app w)
      end
  ∧ inflight (run (map NewTab clocks) w) = inflight w.
Proof.
  revert w. induction clocks as [|now rest IH]; intros w; cbn [map].
  - rewrite run_nil. simpl. by rewrite app_nil_r.
  - rewrite run_cons.
    destruct (IH (step w (NewTab now))) as (Hs & Ha & Hi).
    rewrite Hs, Ha, Hi. cbn [step on_app app inflight].
    unfold latest, createNewTab.
    cbn [sessions activeSessionId setActiveSessionId setSessions].
    split; [|split; [|done]].
    + rewrite length_app, <- app_assoc. cbn [length new_tabs app].
      replace (length (sessions (app w)) + 1)%nat
        with (S (length (sessions (app w)))) by lia.
      reflexivity.
    + destruct rest as [|n rest]; [reflexivity|].
      change (last (now :: n :: rest)) with (last (n :: rest)).
      destruct (last (n :: rest)) eqn:Hlast; [reflexivity|].
      by apply last_None in Hlast.
Qed.

Lemma createNewTabs_sessions (calls : list (N * State)) st :
  sessions (createNewTabs calls st)
  = (sessions st
     ++ map (λ call, new_tab (length (sessions (snd call))) (fst call)) calls)%list
  ∧ activeSessionId (createNewTabs calls st)
    = match last calls with
      | Some call => JsString.of_N (fst call)
      | None => activeSessionId st
      end.
Proof.
  revert st. induction calls as [|[now rendered] rest IH]; intros st.
  - simpl. by rewrite app_nil_r.
  - change (createNewTabs ((now, rendered) :: rest) st)
      with (createNewTabs rest (createNewTab now rendered st)).
    destruct (IH (createNewTab now rendered st)) as [Hs Ha]. rewrite Hs, Ha.
    unfold createNewTab.
    cbn [sessions activeSessionId setActiveSessionId setSessions map fst snd].
    split.
    + by rewrite <- app_assoc.
    + destruct rest as [|c rest]; [reflexivity|].
      change (last ((now, rendered) :: c :: rest)) with (last (c :: rest)).
      destruct (last (c :: rest)) eqn:Hlast; [reflexivity|].
      by apply last_None in Hlast.
Qed.

(** C9, amended. Each [createNewTab] call takes the decimal text of the
    clock reading as the id, names the session ["Terminal "] followed by one
    more than the number of sessions that the render which created the
    handler shows, appends it at the end of the collection as it is then,
    with an empty history, and makes it active. When the page re-renders
    after each call that number is the size of the collection before the
    call. The ids stay unique through a sequence of calls when the clock
    readings differ from one another and none of them is already the id of
    a session; nothing in the code makes two calls at the same reading
    differ. *)
Theorem createNewTab_appends_named_session
    (calls : list (N * State)) (clocks : list N) st w :
  let st' := createNewTabs calls st in
  let w' := run (map NewTab clocks) w in
  sessions st'
  = (sessions st
     ++ map (λ call, new_tab (length (sessions (snd call))) (fst call)) calls)%list
  ∧ activeSessionId st'
    = match last calls with
      | Some call => JsString.of_N (fst call)
      | None => activeSessionId st
      end
  ∧ (NoDup (ids (sessions st)) → NoDup (map fst calls) →
     (∀ call, call ∈ calls → JsString.of_N (fst call) ∉ ids (sessions st)) →
     NoDup (ids (sessions st')))
  ∧ sessions (app w')
    = (sessions (app w) ++ new_tabs (length (sessions (app w))) clocks)%list
  ∧ activeSessionId (app w')
    = match last clocks with
      | Some now => JsString.of_N now
      | None => activeSessionId (app w)
      end
  ∧ (NoDup (ids (sessions (app w))) → NoDup clocks →
     (∀ now, now ∈ clocks → JsString.of_N now ∉ ids (sessions (app w))) →
     NoDup (ids (sessions (app w')))).
Proof.
  intros st' w'.
  destruct (createNewTabs_sessions calls st) as [Hs Ha]. fold st' in Hs, Ha.
  destruct (run_new_tabs clocks w) as (Hws & Hwa & _). fold w' in Hws, Hwa.
  split; [done|]. split; [done|]. split; [|split; [done|split; [done|]]].
  - intros Hnd Hclocks Hfresh. rewrite Hs. unfold ids. rewrite map_app, map_map.
    cbn [new_tab id].
    change (map (λ call : N * State, JsString.of_N (fst call)) calls)
      with (JsString.of_N ∘ fst <$> calls).
    rewrite list_fmap_compose.
    apply NoDup_app. split; [done|]. split.
    + intros x Hx Hin. apply list_elem_of_fmap in Hin as (now & -> & Hnow).
      apply list_elem_of_fmap in Hnow as (call & -> & Hcall).
      by apply (Hfresh call).
    + apply NoDup_fmap_2_strong; [|done]. intros m n _ _. apply of_N_inj.
  - intros Hnd Hclocks Hfresh. rewrite Hws. unfold ids. rewrite map_app.
    fold (ids (sessions (app w))).
    fold (ids (new_tabs (length (sessions (app w))) clocks)).
    rewrite ids_new_tabs. apply NoDup_app. split; [done|]. split.
    + intros x Hx Hin. apply list_elem_of_fmap in Hin as (now & -> & Hnow).
      by apply (Hfresh now).
    + apply NoDup_fmap_2_strong; [|done]. intros m n _ _. apply of_N_inj.
Qed.

Lemma createNewTab_appends_named_session_witness :
  let shown := bootstrap initial in
  let st' := createNewTabs [(1700000000000, shown); (1700000000001, shown)]%N shown in
  let w' := run (map NewTab [1700000000000; 1700000000001]%N) (idle shown) in
  sessions st'
  = [ {| id := "1"; name := "Terminal 1"; history := [] |};
      {| id := "1700000000000"; name := "Terminal 2"; history := [] |};
      {| id := "1700000000001"; name := "Terminal 2"; history := [] |} ]
  ∧ activeSessionId st' = "1700000000001"
  ∧ NoDup (ids (sessions st'))
  ∧ sessions (app w')
    = [ {| id := "1"; name := "Terminal 1"; history := [] |};
        {| id := "1700000000000"; name := "Terminal 2"; history := [] |};
        {| id := "1700000000001"; name := "Terminal 3"; history := [] |} ]
  ∧ activeSessionId (app w') = "1700000000001"
  ∧ NoDup (ids (sessions (app w'))).
Proof.
  intros shown st' w'.
  destruct (createNewTab_appends_named_session
              [(1700000000000, shown); (1700000000001, shown)]%N
              [1700000000000; 1700000000001]%N shown (idle shown))
    as (Hs & Ha & Hnd & Hws & Hwa & Hwnd).
  assert (Hshown : NoDup (ids (sessions shown)))
    by (vm_compute; apply NoDup_ListNoDup; repeat constructor; simpl; tauto).
  split; [etransitivity; [exact Hs|]; vm_compute; reflexivity|].
  split; [etransitivity; [exact Ha|]; vm_compute; reflexivity|].
  split; [|split; [|split]].
  - apply Hnd; [exact Hshown| |].
    + apply NoDup_ListNoDup. repeat constructor; simpl; intuition discriminate.
    + intros call Hcall. vm_compute.
      apply list_elem_of_In in Hcall. intros Hin. apply list_elem_of_In in Hin.
      simpl in Hcall, Hin. destruct Hcall as [<-|[<-|[]]]; vm_compute in Hin;
        intuition discriminate.
  - etransitivity; [exact Hws|]. vm_compute. reflexivity.
  - etransitivity; [exact Hwa|]. vm_compute. reflexivity.
  - apply Hwnd; [exact Hshown| |].
    + apply NoDup_ListNoDup. repeat constructor; simpl; intuition discriminate.
    + intros now Hnow. vm_compute.
      apply list_elem_of_In in Hnow. intros Hin. apply list_elem_of_In in Hin.
      simpl in Hnow, Hin. destruct Hnow as [<-|[<-|[]]]; vm_compute in Hin;
        intuition discriminate.
Defined.

(** C9 as stated fails twice. Two calls at the same clock reading allocate
    the same id, so the second id is not fresh and the ids are no longer
    unique. And two calls from one render (the page has not re-rendered in
    between) give both sessions the same name: the second is appended to a
    collection of two sessions and is named ["Terminal 2"], not
    ["Terminal 3"]; from the first render, which shows no session, both are
    named ["Terminal 1"]. *)
Lemma same_clock_same_id_and_same_render_same_name :
  let shown := bootstrap initial in
  let st := app (run [NewTab 1700000000000; NewTab 1700000000000] (idle shown)) in
  let first := createNewTab 1700000000000 shown shown in
  let second := createNewTab 1700000000001 shown first in
  (ids (sessions st) = ["1"; "1700000000000"; "1700000000000"]
   ∧ ¬ NoDup (ids (sessions st)))
  ∧ (length (sessions first) = 2%nat
     ∧ map name (sessions second) = ["Terminal 1"; "Terminal 2"; "Terminal 2"])
  ∧ map name (sessions (createNewTabs [(1700000000000, initial);
                                       (1700000000001, initial)]%N initial))
    = ["Terminal 1"; "Terminal 1"].
Proof.
  intros shown st first second.
  assert (Hids : ids (sessions st) = ["1"; "1700000000000"; "1700000000000"])
    by (vm_compute; reflexivity).
  split; [|split; [split|]; vm_compute; reflexivity].
  split; [done|]. rewrite Hids. intros Hnd.
  apply NoDup_cons in Hnd as [_ Hnd]. apply NoDup_cons in Hnd as [Hnot _].
  apply Hnot. by left.
Qed.

(** C1, amended. When the session key holds text that [JSON.parse] rejects,
    the load effect throws the parser's [SyntaxError] and nothing catches
    it: no session is installed and no session becomes active. The
    bootstrap with the single session of id ["1"], name ["Terminal 1"] and
    empty history, made active, is what the effect does when the key is
    absent or holds the empty string. *)
Theorem malformed_storage_throws (ls : Storage) st :
  (∀ saved, terminal_sessions ls = Some saved → saved ≠ "" →
     Json.parse saved = None → loadSessions ls st = UncaughtSyntaxError)
  ∧ (terminal_sessions ls = None ∨ terminal_sessions ls = Some "" →
     loadSessions ls st = Mounted (bootstrap st)
     ∧ sessions (bootstrap st)
       = [ {| id := "1"; name := "Terminal 1"; history := [] |} ]
     ∧ activeSessionId (bootstrap st) = "1").
Proof.
  split.
  - intros saved Hsaved Hne Hparse. unfold loadSessions.
    rewrite Hsaved. simpl. by rewrite (truthy_true _ Hne), Hparse.
  - intros Habsent. unfold loadSessions.
    by destruct Habsent as [-> | ->].
Qed.

Lemma malformed_storage_throws_witness :
  loadSessions {| terminal_sessions := Some "undefined"; active_terminal_tab := Some "1" |}
    initial = UncaughtSyntaxError
  ∧ loadSessions {| terminal_sessions := None; active_terminal_tab := None |} initial
    = Mounted (bootstrap initial).
Proof.
  split.
  - destruct (malformed_storage_throws
                {| terminal_sessions := Some "undefined"; active_terminal_tab := Some "1" |}
                initial) as [Hthrows _].
    apply (Hthrows "undefined"); [reflexivity | discriminate | vm_compute; reflexivity].
  - destruct (malformed_storage_throws
                {| terminal_sessions := None; active_terminal_tab := None |} initial)
      as [_ Hboot].
    apply Hboot. by left.
Defined.

(** C1 as stated fails: with unparsable text under the session key the
    effect does not reach the bootstrap; it ends in the uncaught error. *)
Lemma malformed_storage_is_not_bootstrapped :
  let ls := {| terminal_sessions := Some "[{id: 1, name: Terminal 1";
               active_terminal_tab := Some "1" |} in
  Json.parse "[{id: 1, name: Terminal 1" = None
  ∧ loadSessions ls initial = UncaughtSyntaxError
  ∧ loadSessions ls initial ≠ Mounted (bootstrap initial).
Proof.
  intros ls. split; [vm_compute; reflexivity|].
  assert (H : loadSessions ls initial = UncaughtSyntaxError) by (vm_compute; reflexivity).
  split; [done|]. rewrite H. discriminate.
Qed.

End SessionManagerClaims.

(** ** The page: what the handlers leave alone *)

Section FrameFacts.

Import Terminal Ui.

Implicit Types (st : State) (w : World) (p : Pending) (o : FetchOutcome).

Lemma interact_cons i (inputs : list Input) w :
  interact (i :: inputs) w = interact inputs (react w i).
Proof. reflexivity. Qed.

Lemma interact_nil w : interact [] w = w.
Proof. reflexivity. Qed.

Lemma interact_app (xs ys : list Input) w :
  interact (xs ++ ys) w = interact ys (interact xs w).
Proof. apply fold_left_app. Qed.

(** The three ways [executeCommand] can go. *)
Lemma executeCommand_cases (command : string) st :
  executeCommand command st = (st, None)
  ∨ (JsString.trim command = "clear"
     ∧ executeCommand command st = (setCurrentCommand "" (clearTerminal st), None))
  ∨ (JsString.trim command ≠ "" ∧ JsString.trim command ≠ "clear"
     ∧ activeSessionId st ≠ ""
     ∧ executeCommand command st
       = (setAbortControllerRef (Some (length (controllers st)))
            (setControllers (λ h, (h ++ [false])%list)
               (setIsLoading true (setCurrentCommand ""
                  (updateSessionHistory (activeSessionId st) (command_entry command)
                     (setHistoryIndex (-1)
                        (setCommandHistory (HistoryNavigator.push command) st)))))),
          Some {| captured_activeSessionId := activeSessionId st;
                  captured_command := command;
                  signal := length (controllers st) |})).
Proof.
  unfold executeCommand.
  destruct (decide (JsString.trim command = "")) as [Hblank|Hne];
    [left; by rewrite Hblank|].
  destruct (decide (activeSessionId st = "")) as [Hnone|Hactive];
    [left; rewrite Hnone; by destruct (JsString.truthy _)|].
  rewrite (truthy_true _ Hne), (truthy_true _ Hactive).
  cbn [negb orb]. case_decide as Hclear; [right; left; done|].
  right; right. done.
Qed.

Lemma resume_cases p o st :
  resume p o st = st
  ∨ (aborted (signal p) st = false
     ∧ resume p o st
       = setAbortControllerRef None (setIsLoading false
           (setSessions (extend (captured_activeSessionId p) (outcome_entries o)) st))).
Proof.
  destruct (aborted (signal p) st) eqn:H.
  - left. by apply resume_aborted.
  - right. split; [done|]. by apply resume_settled.
Qed.

End FrameFacts.

(** ** History navigation with the arrow keys *)

Section HistoryCursorFacts.

Import Terminal Ui.

Implicit Types (st : State) (w : World) (e : KeyboardEvent).

Lemma cursor_ok_frame st st' :
  commandHistory st' = commandHistory st → historyIndex st' = historyIndex st →
  cursor_ok st → cursor_ok st'.
Proof. unfold cursor_ok. by intros -> ->. Qed.

Lemma cursor_ok_submit (command : string) w :
  cursor_ok (app w) → cursor_ok (app (step w (Submit command))).
Proof.
  intros Hok. simpl.
  destruct (executeCommand_cases command (app w)) as [H | [[_ H] | (_ & _ & _ & H)]];
    rewrite H; simpl; [done | by eapply cursor_ok_frame |].
  destruct Hok as [Hwf _]. split; simpl.
  - by apply push_well_formed.
  - lia.
Qed.

Lemma cursor_ok_resume p o st : cursor_ok st → cursor_ok (resume p o st).
Proof.
  intros Hok. destruct (resume_cases p o st) as [-> | [_ ->]]; [done|].
  by eapply cursor_ok_frame.
Qed.

Lemma cursor_ok_cancelCommand st : cursor_ok st → cursor_ok (cancelCommand st).
Proof.
  apply cursor_ok_frame; unfold cancelCommand; by destruct (abortControllerRef st).
Qed.

Lemma cursor_ok_closeTab (sessionId : string) st :
  cursor_ok st → cursor_ok (latest (closeTab sessionId) st).
Proof.
  apply cursor_ok_frame; unfold latest, closeTab;
    destruct (_ =? _)%nat; try done; by case_decide.
Qed.

Lemma cursor_ok_handleKeyDown e (selection : string) w :
  cursor_ok (app w) → cursor_ok (app (handleKeyDown e selection w)).
Proof.
  intros Hok. unfold handleKeyDown.
  repeat match goal with
         | |- context [if ?b then _ else _] => destruct b eqn:?
         end;
    try done;
    try (by apply cursor_ok_cancelCommand);
    try (by apply cursor_ok_submit);
    try (by eapply cursor_ok_frame; [| |exact Hok]);
    destruct Hok as [Hwf Hidx]; (split; [done|]); cbn [app on_app historyIndex
      commandHistory setCurrentCommand setHistoryIndex];
    repeat match goal with
           | H : (_ <? _)%nat = true |- _ => apply Nat.ltb_lt in H
           | H : (_ <? _)%Z = true |- _ => apply Z.ltb_lt in H
           | H : (_ =? _)%Z = true |- _ => apply Z.eqb_eq in H
           end; lia.
Qed.

(** X1. Whatever is typed, clicked or answered, the command-history list
    keeps unique values and at most 50 of them, and the history cursor is
    [-1] (no selection) or the index of an entry of the list. *)
Theorem history_cursor_stays_in_range (inputs : list Input) w :
  cursor_ok (app w) → cursor_ok (app (interact inputs w)).
Proof.
  revert w. induction inputs as [|i inputs IH]; intros w Hok; [done|].
  rewrite interact_cons. apply IH.
  destruct i as [e selection | value | i | i | now | k o]; cbn [react].
  - by apply cursor_ok_handleKeyDown.
  - done.
  - by destruct (sessions (app w) !! i).
  - destruct (1 <? _)%nat; [|done]. destruct (sessions (app w) !! i); [|done].
    by apply cursor_ok_closeTab.
  - done.
  - simpl. destruct (inflight w !! k); [|done]. by apply cursor_ok_resume.
Qed.

Lemma history_cursor_stays_in_range_witness :
  cursor_ok
    (app (interact
            [ Change "ls"; KeyDown {| ctrlKey := false; key := "Enter" |} "";
              KeyDown {| ctrlKey := false; key := "ArrowUp" |} "";
              KeyDown {| ctrlKey := false; key := "ArrowUp" |} "" ]
            (idle (bootstrap initial)))).
Proof.
  apply history_cursor_stays_in_range.
  split; [split; [constructor | simpl; lia] | simpl; lia].
Defined.

Lemma recalled_lookup (h : list string) (i : Z) :
  (0 <= i)%Z → recalled h i = default "" (h !! Z.to_nat i).
Proof.
  intros Hi. unfold recalled.
  destruct (i <? 0)%Z eqn:Hneg; [apply Z.ltb_lt in Hneg; lia|].
  destruct (h !! Z.to_nat i); [apply or_else_empty | done].
Qed.

Lemma handleKeyDown_ArrowUp e (selection : string) w :
  key e = "ArrowUp" →
  handleKeyDown e selection w
  = if (0 <? length (commandHistory (app w)))%nat then
      on_app (λ st,
        setCurrentCommand
          (recalled (commandHistory st)
             (Z.min (historyIndex (app w) + 1)
                (Z.of_nat (length (commandHistory (app w))) - 1)))
          (setHistoryIndex
             (Z.min (historyIndex (app w) + 1)
                (Z.of_nat (length (commandHistory (app w))) - 1)) st)) w
    else w.
Proof. intros Hkey. unfold handleKeyDown. rewrite Hkey. by destruct (ctrlKey e). Qed.

Lemma handleKeyDown_ArrowDown e (selection : string) w :
  key e = "ArrowDown" →
  handleKeyDown e selection w
  = if (0 <? historyIndex (app w))%Z then
      on_app (λ st,
        setCurrentCommand (recalled (commandHistory st) (historyIndex (app w) - 1))
          (setHistoryIndex (historyIndex (app w) - 1) st)) w
    else if (historyIndex (app w) =? 0)%Z then
      on_app (λ st, setCurrentCommand "" (setHistoryIndex (-1) st)) w
    else w.
Proof. intros Hkey. unfold handleKeyDown. rewrite Hkey. by destruct (ctrlKey e). Qed.

(** One more ArrowUp from a cursor in range. *)
Lemma arrow_up_step e (selection : string) w :
  key e = "ArrowUp" → commandHistory (app w) ≠ [] →
  let h := commandHistory (app w) in
  let next := Z.min (historyIndex (app w) + 1) (Z.of_nat (length h) - 1) in
  let w' := handleKeyDown e selection w in
  historyIndex (app w') = next
  ∧ currentCommand (app w') = recalled h next
  ∧ commandHistory (app w') = h
  ∧ sessions (app w') = sessions (app w)
  ∧ inflight w' = inflight w.
Proof.
  intros Hkey Hne h next w'. subst w' h next. rewrite handleKeyDown_ArrowUp by done.
  assert (Hpos : (0 <? length (commandHistory (app w)))%nat = true)
    by (destruct (commandHistory (app w)); [done | reflexivity]).
  rewrite Hpos. by repeat split.
Qed.

(** X2. With a non-empty command-history list and no selection, pressing
    ArrowUp [n+1] times selects the entry of index [n], the most recent
    first, and stops at the oldest entry; the input shows the selected
    entry, and neither the list nor any session changes. *)
Theorem arrow_up_recalls_and_clamps (n : nat) e (selection : string) w :
  key e = "ArrowUp" → commandHistory (app w) ≠ [] → historyIndex (app w) = (-1)%Z →
  let h := commandHistory (app w) in
  let i := (n `min` (length h - 1))%nat in
  let w' := interact (replicate (S n) (KeyDown e selection)) w in
  historyIndex (app w') = Z.of_nat i
  ∧ currentCommand (app w') = default "" (h !! i)
  ∧ commandHistory (app w') = h
  ∧ sessions (app w') = sessions (app w)
  ∧ inflight w' = inflight w.
Proof.
  intros Hkey Hne Hidx h i w'. subst i w'.
  assert (Hlen : (0 < length h)%nat)
    by (subst h; destruct (commandHistory (app w)); [done | simpl; lia]).
  induction n as [|n IH].
  - rewrite Nat.min_0_l. cbn [replicate]. rewrite interact_cons, interact_nil. cbn [react].
    destruct (arrow_up_step e selection w Hkey Hne) as (Hi & Hc & Hh & Hs & Hf).
    fold h in Hi, Hc, Hh. rewrite Hi, Hc, Hh, Hs, Hf, Hidx.
    replace (Z.min (-1 + 1) (Z.of_nat (length h) - 1)) with 0%Z by lia.
    rewrite recalled_lookup by lia. by repeat split.
  - destruct IH as (Hi & Hc & Hh & Hs & Hf).
    replace (replicate (S (S n)) (KeyDown e selection))
      with (replicate (S n) (KeyDown e selection) ++ [KeyDown e selection])%list
      by (by rewrite <- replicate_S_end).
    rewrite interact_app. rewrite interact_cons, interact_nil. cbn [react].
    set (w1 := interact (replicate (S n) (KeyDown e selection)) w) in *.
    assert (Hne1 : commandHistory (app w1) ≠ []) by (by rewrite Hh).
    destruct (arrow_up_step e selection w1 Hkey Hne1) as (Hi' & Hc' & Hh' & Hs' & Hf').
    rewrite Hi', Hc', Hh', Hs', Hf', Hh, Hi, Hs, Hf. fold h.
    replace (Z.min (Z.of_nat (n `min` (length h - 1)) + 1) (Z.of_nat (length h) - 1))
      with (Z.of_nat (S n `min` (length h - 1))) by lia.
    rewrite recalled_lookup by lia. rewrite Nat2Z.id. by repeat split.
Qed.

Lemma arrow_up_recalls_and_clamps_witness :
  let up := {| ctrlKey := false; key := "ArrowUp" |} in
  let enter := {| ctrlKey := false; key := "Enter" |} in
  let w := interact [ Change "ls"; KeyDown enter ""; Arrives 0 (NetworkError "down");
                      Change "pwd"; KeyDown enter "" ] (idle (bootstrap initial)) in
  commandHistory (app w) = ["pwd"; "ls"]
  ∧ currentCommand (app (interact (replicate 2 (KeyDown up "")) w)) = "ls"
  ∧ currentCommand (app (interact (replicate 5 (KeyDown up "")) w)) = "ls"
  ∧ historyIndex (app (interact (replicate 5 (KeyDown up "")) w)) = 1%Z.
Proof.
  intros up enter w.
  assert (Hh : commandHistory (app w) = ["pwd"; "ls"]) by (vm_compute; reflexivity).
  assert (Hne : commandHistory (app w) ≠ []) by (rewrite Hh; discriminate).
  assert (Hidx : historyIndex (app w) = (-1)%Z) by (vm_compute; reflexivity).
  destruct (arrow_up_recalls_and_clamps 1 up "" w eq_refl Hne Hidx) as (_ & Hc1 & _).
  destruct (arrow_up_recalls_and_clamps 4 up "" w eq_refl Hne Hidx) as (Hi4 & Hc4 & _).
  split; [exact Hh|]. split; [rewrite Hc1, Hh; reflexivity|].
  split; [rewrite Hc4, Hh; reflexivity|]. rewrite Hi4, Hh. reflexivity.
Defined.

(** X3. ArrowDown takes back an ArrowUp that moved the cursor: the cursor
    returns to where it was, and the input shows the entry there, or is
    emptied when the cursor is back at no selection (the text that was in
    the input before the recall is not brought back). *)
Theorem arrow_down_undoes_arrow_up (up down : KeyboardEvent) (s1 s2 : string) w :
  key up = "ArrowUp" → key down = "ArrowDown" →
  (-1 <= historyIndex (app w))%Z →
  (historyIndex (app w) + 1 < Z.of_nat (length (commandHistory (app w))))%Z →
  let h := commandHistory (app w) in
  let i := historyIndex (app w) in
  let w' := interact [KeyDown up s1; KeyDown down s2] w in
  historyIndex (app w') = i
  ∧ currentCommand (app w')
    = (if (i =? -1)%Z then "" else default "" (h !! Z.to_nat i))
  ∧ commandHistory (app w') = h
  ∧ sessions (app w') = sessions (app w).
Proof.
  intros Hup Hdown Hlow Hhigh h i w'. subst w'.
  rewrite !interact_cons, interact_nil. cbn [react].
  assert (Hne : commandHistory (app w) ≠ [])
    by (intros Hnil; rewrite Hnil in Hhigh; simpl in Hhigh; lia).
  destruct (arrow_up_step up s1 w Hup Hne) as (Hi & Hc & Hh & Hs & Hf).
  set (w1 := handleKeyDown up s1 w) in *. clearbody w1.
  rewrite handleKeyDown_ArrowDown by done. rewrite Hi.
  replace (Z.min (historyIndex (app w) + 1)
             (Z.of_nat (length (commandHistory (app w))) - 1))
    with (i + 1)%Z by (subst i; lia).
  destruct (i =? -1)%Z eqn:Hi1.
  - apply Z.eqb_eq in Hi1. rewrite Hi1.
    change (0 <? -1 + 1)%Z with false. change (-1 + 1 =? 0)%Z with true.
    cbn [app on_app historyIndex currentCommand commandHistory sessions
         setCurrentCommand setHistoryIndex].
    by rewrite Hh, Hs.
  - apply Z.eqb_neq in Hi1.
    destruct (0 <? i + 1)%Z eqn:Hpos; [|apply Z.ltb_ge in Hpos; subst i; lia].
    cbn [app on_app historyIndex currentCommand commandHistory sessions
         setCurrentCommand setHistoryIndex].
    rewrite Hh, Hs. replace (i + 1 - 1)%Z with i by lia.
    rewrite recalled_lookup by (subst i; lia). by repeat split.
Qed.

Lemma arrow_down_undoes_arrow_up_witness :
  let up := {| ctrlKey := false; key := "ArrowUp" |} in
  let down := {| ctrlKey := false; key := "ArrowDown" |} in
  let enter := {| ctrlKey := false; key := "Enter" |} in
  let w := interact [ Change "ls"; KeyDown enter ""; Arrives 0 (NetworkError "down");
                      Change "half typed" ] (idle (bootstrap initial)) in
  currentCommand (app w) = "half typed"
  ∧ currentCommand (app (interact [KeyDown up ""; KeyDown down ""] w)) = ""
  ∧ historyIndex (app (interact [KeyDown up ""; KeyDown down ""] w)) = (-1)%Z.
Proof.
  intros up down enter w.
  assert (H1 : (-1 <= historyIndex (app w))%Z) by (vm_compute; discriminate).
  assert (H2 : (historyIndex (app w) + 1 < Z.of_nat (length (commandHistory (app w))))%Z)
    by (vm_compute; reflexivity).
  destruct (arrow_down_undoes_arrow_up up down "" "" w eq_refl eq_refl H1 H2)
    as (Hi & Hc & _).
  split; [vm_compute; reflexivity|]. split; [rewrite Hc | rewrite Hi]; vm_compute; reflexivity.
Defined.

End HistoryCursorFacts.

(** ** One command at a time *)

Section BusyFacts.

Import Terminal Ui.

Implicit Types (st : State) (w : World) (p q : Pending) (o : FetchOutcome).

Lemma filter_agree {A : Type} (P Q : A → Prop)
    `{∀ x, Decision (P x)} `{∀ x, Decision (Q x)} (l : list A) :
  Forall (λ x, P x ↔ Q x) l → filter P l = filter Q l.
Proof.
  induction 1 as [|x l Hx _ IH]; [done|].
  destruct (decide (P x)) as [HP|HP].
  - rewrite !filter_cons_True by tauto. by rewrite IH.
  - rewrite !filter_cons_False by tauto. done.
Qed.

Lemma filter_none {A : Type} (P : A → Prop) `{∀ x, Decision (P x)} (l : list A) :
  Forall (λ x, ¬ P x) l → filter P l = [].
Proof.
  induction 1 as [|x l Hx _ IH]; [done|]. by rewrite filter_cons_False.
Qed.

Lemma filter_delete_out {A : Type} (P : A → Prop) `{∀ x, Decision (P x)}
    (l : list A) (k : nat) (x : A) :
  l !! k = Some x → ¬ P x → filter P (delete k l) = filter P l.
Proof.
  intros Hk HP. apply list_elem_of_split_length in Hk as (l1 & l2 & -> & ->).
  rewrite delete_middle, !filter_app. by rewrite filter_cons_False.
Qed.

Lemma filter_delete_only {A : Type} (P : A → Prop) `{∀ x, Decision (P x)}
    (l : list A) (k : nat) (x y : A) :
  l !! k = Some x → P x → filter P l = [y] → filter P (delete k l) = [].
Proof.
  intros Hk HP Hone. apply list_elem_of_split_length in Hk as (l1 & l2 & -> & ->).
  rewrite delete_middle, filter_app.
  rewrite filter_app, filter_cons_True in Hone by done.
  apply elt_eq_unit in Hone as (_ & -> & ->). done.
Qed.

Lemma elem_of_live q w :
  q ∈ live w ↔ aborted (signal q) (app w) = false ∧ q ∈ inflight w.
Proof.
  unfold live. apply (list_elem_of_filter (λ p, aborted (signal p) (app w) = false)).
Qed.

(** The handlers that touch neither the requests nor the busy flag. *)
Lemma busy_ok_frame w w' :
  inflight w' = inflight w → controllers (app w') = controllers (app w) →
  isLoading (app w') = isLoading (app w) →
  abortControllerRef (app w') = abortControllerRef (app w) →
  busy_ok w → busy_ok w'.
Proof.
  intros Hf Hc Hl Hr. unfold busy_ok, live, aborted. by rewrite Hf, Hc, Hl, Hr.
Qed.

Lemma busy_ok_cancel w :
  isLoading (app w) = true → busy_ok w → busy_ok (on_app cancelCommand w).
Proof.
  intros Hloading [Hsig [[Hl _] | (_ & p & Hlive & Href)]]; [congruence|].
  assert (Hp : aborted (signal p) (app w) = false ∧ p ∈ inflight w).
  { apply elem_of_live. rewrite Hlive. by left. }
  destruct Hp as [Hpa Hpin].
  assert (Hplt : (signal p < length (controllers (app w)))%nat)
    by (by eapply Forall_forall in Hsig).
  split; cbn [on_app app inflight].
  - rewrite (cancelCommand_controllers _ _ Href), length_insert. done.
  - left. split; [unfold cancelCommand; by destruct (abortControllerRef (app w))|].
    unfold live. cbn [on_app app inflight]. apply filter_none.
    apply Forall_forall. intros q Hq. unfold aborted.
    rewrite (cancelCommand_controllers _ _ Href).
    destruct (decide (signal q = signal p)) as [Heq|Hne].
    + rewrite Heq, list_lookup_insert_eq by done. simpl. discriminate.
    + rewrite list_lookup_insert_ne by done.
      intros Hqa. apply Hne. f_equal.
      assert (Hqlive : q ∈ live w) by (by apply elem_of_live).
      rewrite Hlive in Hqlive. by apply list_elem_of_singleton in Hqlive.
Qed.

Lemma busy_ok_submit (command : string) w :
  isLoading (app w) = false → busy_ok w → busy_ok (step w (Submit command)).
Proof.
  intros Hidle Hok. cbn [step].
  destruct (executeCommand_cases command (app w)) as [H | [[_ H] | (_ & _ & _ & H)]];
    rewrite H.
  - rewrite app_nil_r. by destruct w.
  - rewrite app_nil_r. by eapply busy_ok_frame; [| | | |exact Hok].
  - destruct Hok as [Hsig [[_ Hlive] | [Hl _]]]; [|congruence].
    set (c := length (controllers (app w))) in *.
    assert (Hold : Forall (λ q, aborted (signal q)
                     (setAbortControllerRef (Some c)
                        (setControllers (λ h, (h ++ [false])%list)
                           (setIsLoading true (setCurrentCommand ""
                              (updateSessionHistory (activeSessionId (app w))
                                 (command_entry command)
                                 (setHistoryIndex (-1)
                                    (setCommandHistory (HistoryNavigator.push command)
                                       (app w)))))))) = false
                   ↔ aborted (signal q) (app w) = false) (inflight w)).
    { eapply Forall_impl; [exact Hsig|]. intros q Hq. unfold aborted. simpl.
      by rewrite lookup_app_l. }
    split; cbn [app inflight].
    + simpl. rewrite length_app. simpl. apply Forall_app. split.
      * eapply Forall_impl; [exact Hsig|]. intros q Hq. simpl in Hq. lia.
      * repeat constructor. simpl. fold c. lia.
    + right. split; [done|].
      exists {| captured_activeSessionId := activeSessionId (app w);
                captured_command := command; signal := c |}.
      split; [|reflexivity].
      unfold live. cbn [app inflight]. rewrite filter_app.
      rewrite (filter_agree _ _ _ Hold). fold (live w). rewrite Hlive.
      rewrite filter_cons_True; [done|].
      unfold aborted. simpl. by rewrite list_lookup_middle.
Qed.

Lemma busy_ok_settle (k : nat) o w : busy_ok w → busy_ok (step w (Settle k o)).
Proof.
  intros Hok. cbn [step]. destruct (inflight w !! k) as [q|] eqn:Hk; [|done].
  destruct Hok as [Hsig Hstate].
  destruct (aborted (signal q) (app w)) eqn:Hq.
  - rewrite resume_aborted by done. split; cbn [app inflight].
    + by apply Forall_delete.
    + unfold live in *. cbn [app inflight].
      rewrite (filter_delete_out _ _ _ _ Hk) by (rewrite Hq; discriminate). done.
  - rewrite resume_settled by done. split; cbn [app inflight].
    + apply Forall_delete. done.
    + left. split; [done|].
      destruct Hstate as [[_ Hlive] | (_ & p & Hlive & _)].
      * exfalso. eapply (filter_nil_not_elem_of _ _ q Hlive); [done|].
        by eapply list_elem_of_lookup_2.
      * unfold live in *. cbn [app inflight].
        apply (filter_delete_only _ _ _ _ p Hk); done.
Qed.

Lemma busy_ok_handleKeyDown (e : KeyboardEvent) (selection : string) w :
  busy_ok w → busy_ok (handleKeyDown e selection w).
Proof.
  intros Hok. unfold handleKeyDown.
  repeat match goal with
         | |- context [if ?b then _ else _] => destruct b eqn:?
         end;
    try done;
    try (by apply busy_ok_cancel);
    try (by eapply busy_ok_frame; [| | | |exact Hok]).
  apply busy_ok_submit; [|done].
  match goal with
  | H : _ && negb (isLoading (app w)) = true |- _ =>
      apply andb_true_iff in H as [_ H]; by apply negb_true_iff in H
  end.
Qed.

Lemma busy_ok_react (i : Input) w : busy_ok w → busy_ok (react w i).
Proof.
  intros Hok. destruct i as [e selection | value | i | i | now | k o]; cbn [react].
  - by apply busy_ok_handleKeyDown.
  - by eapply busy_ok_frame; [| | | |exact Hok].
  - destruct (sessions (app w) !! i); [|done].
    by eapply busy_ok_frame; [| | | |exact Hok].
  - destruct (1 <? _)%nat; [|done]. destruct (sessions (app w) !! i); [|done].
    eapply busy_ok_frame; [| | | |exact Hok]; try done;
      cbn [step on_app app]; unfold latest, closeTab;
      destruct (_ =? _)%nat; try done; by case_decide.
  - by eapply busy_ok_frame; [| | | |exact Hok].
  - by apply busy_ok_settle.
Qed.

Lemma busy_ok_interact (inputs : list Input) w : busy_ok w → busy_ok (interact inputs w).
Proof.
  revert w. induction inputs as [|i inputs IH]; intros w Hok; [done|].
  rewrite interact_cons. by apply IH, busy_ok_react.
Qed.

(** X4. From a component that is not busy and has nothing in flight, and
    whatever is typed, clicked or answered: while the busy flag is up
    exactly one request in flight has a signal that is not aborted, and
    while it is down there is none. A second command is never sent while
    one is running, and the flag never stays up once the running command
    has settled or has been cancelled. *)
Theorem one_live_request_while_busy (inputs : list Input) st :
  isLoading st = false →
  let w := interact inputs (idle st) in
  length (live w) = (if isLoading (app w) then 1 else 0)%nat.
Proof.
  intros Hidle w.
  assert (Hok : busy_ok w).
  { apply busy_ok_interact. split; [constructor|]. left. by split. }
  destruct Hok as [_ [[-> ->] | (-> & p & -> & _)]]; reflexivity.
Qed.

Lemma one_live_request_while_busy_witness :
  let enter := {| ctrlKey := false; key := "Enter" |} in
  let ctrl_c := {| ctrlKey := true; key := "c" |} in
  let w := interact [ Change "sleep 9"; KeyDown enter ""; Change "ls"; KeyDown enter "";
                      KeyDown ctrl_c ""; Change "pwd"; KeyDown enter "" ]
             (idle (bootstrap initial)) in
  length (inflight w) = 2%nat ∧ isLoading (app w) = true ∧ length (live w) = 1%nat.
Proof.
  intros enter ctrl_c w.
  pose proof (one_live_request_while_busy
                [ Change "sleep 9"; KeyDown enter ""; Change "ls"; KeyDown enter "";
                  KeyDown ctrl_c ""; Change "pwd"; KeyDown enter "" ]
                (bootstrap initial) eq_refl) as H.
  cbv zeta in H. fold w in H.
  assert (Hl : isLoading (app w) = true) by (vm_compute; reflexivity).
  rewrite Hl in H. split; [vm_compute; reflexivity|]. by split.
Defined.

End BusyFacts.

(** ** The collection of sessions and the active session *)

Section SessionInvariantFacts.

Import Terminal Ui.

Implicit Types (st : State) (w : World) (l : list TerminalSession) (sid : string).

Lemma sessions_ok_frame st st' :
  ids (sessions st') = ids (sessions st) → activeSessionId st' = activeSessionId st →
  sessions_ok st → sessions_ok st'.
Proof.
  intros Hids Hactive (Hne & Hnd & Hin). unfold sessions_ok. rewrite Hids, Hactive.
  split; [|done]. intros Hnil. rewrite Hnil in Hids.
  destruct (sessions st); [done | discriminate].
Qed.

Lemma sessions_ok_select st s (i : nat) :
  sessions st !! i = Some s → sessions_ok st → sessions_ok (setActiveSessionId (id s) st).
Proof.
  intros Hi (Hne & Hnd & _). split; [done|]. split; [done|]. simpl.
  apply (list_elem_of_fmap_2 id). by eapply list_elem_of_lookup_2.
Qed.

Lemma NoDup_ids_filter sid l :
  NoDup (ids l) → NoDup (ids (filter (λ s, id s ≠ sid) l)).
Proof.
  induction l as [|s l IH]; simpl; intros Hnd; [constructor|].
  apply NoDup_cons in Hnd as [Hs Hnd].
  destruct (decide (id s = sid)) as [Heq|Hne].
  - rewrite filter_cons_False by (intros H; by apply H). by apply IH.
  - rewrite filter_cons_True by done. simpl. apply NoDup_cons. split; [|by apply IH].
    intros Hin. apply Hs. apply list_elem_of_fmap in Hin as (x & Hx & Hin).
    apply list_elem_of_filter in Hin as [_ Hin]. rewrite Hx.
    by apply (list_elem_of_fmap_2 id).
Qed.

Lemma ids_filter_keeps sid (x : string) l :
  x ∈ ids l → x ≠ sid → x ∈ ids (filter (λ s, id s ≠ sid) l).
Proof.
  intros Hin Hne. apply list_elem_of_fmap in Hin as (s & -> & Hs).
  apply (list_elem_of_fmap_2 id). apply list_elem_of_filter. by split.
Qed.

Lemma sessions_ok_closeTab sid st :
  (1 < length (sessions st))%nat → sid ∈ ids (sessions st) →
  sessions_ok st → sessions_ok (latest (closeTab sid) st).
Proof.
  intros Hmany Hsid (Hne & Hnd & Hin).
  pose proof (filter_id_present_length sid (sessions st) Hnd Hsid) as Hlen.
  unfold latest, closeTab.
  destruct (length (sessions st) =? 1)%nat eqn:Hone; [apply Nat.eqb_eq in Hone; lia|].
  destruct (filter (λ s, id s ≠ sid) (sessions st)) as [|s rest] eqn:Hrem;
    [simpl in Hlen; lia|].
  assert (Hnd' : NoDup (ids (s :: rest)))
    by (rewrite <- Hrem; by apply NoDup_ids_filter).
  case_decide as Hactive; (split; [|split]); simpl; rewrite ?Hrem; try done.
  - rewrite or_else_empty. by left.
  - rewrite <- Hrem. apply ids_filter_keeps; [done | congruence].
Qed.

Lemma sessions_ok_createNewTab (now : N) (rendered : State) st :
  JsString.of_N now ∉ ids (sessions st) →
  sessions_ok st → sessions_ok (createNewTab now rendered st).
Proof.
  intros Hfresh (Hne & Hnd & Hin). unfold sessions_ok, createNewTab. simpl.
  unfold ids. rewrite map_app. simpl. split; [by destruct (sessions st)|]. split.
  - apply NoDup_app. split; [done|]. split; [|apply NoDup_singleton].
    intros x Hx Hx'. apply list_elem_of_singleton in Hx'. by subst.
  - apply elem_of_app. right. by left.
Qed.

Lemma sessions_ok_submit (command : string) w :
  sessions_ok (app w) → sessions_ok (app (step w (Submit command))).
Proof.
  intros Hok. cbn [step].
  destruct (executeCommand_cases command (app w)) as [H | [[_ H] | (_ & _ & _ & H)]];
    rewrite H; cbn [app]; [done | |];
    (eapply sessions_ok_frame; [| |exact Hok]); try done; simpl.
  - apply ids_cleared.
  - apply ids_extend.
Qed.

Lemma sessions_ok_resume p o st : sessions_ok st → sessions_ok (resume p o st).
Proof.
  intros Hok. destruct (resume_cases p o st) as [-> | [_ ->]]; [done|].
  eapply sessions_ok_frame; [| |exact Hok]; [|done]. apply ids_extend.
Qed.

Lemma sessions_ok_handleKeyDown (e : KeyboardEvent) (selection : string) w :
  sessions_ok (app w) → sessions_ok (app (handleKeyDown e selection w)).
Proof.
  intros Hok. unfold handleKeyDown.
  repeat match goal with
         | |- context [if ?b then _ else _] => destruct b eqn:?
         end;
    try done;
    try (by apply sessions_ok_submit);
    (eapply sessions_ok_frame; [| |exact Hok]); try done; cbn [on_app app].
  - rewrite cancelCommand_sessions. apply ids_extend.
  - apply cancelCommand_active.
  - apply ids_extend.
  - apply ids_cleared.
Qed.

(** X5. From a state with at least one session, unique ids and an active id
    that is the id of a session, and whatever is typed, clicked or answered,
    as long as no click on [+] happens at a clock reading whose text is
    already an id: there is always at least one session, the ids stay
    unique, and the active id is the id of a session, so the page always
    has a session to show. *)
Theorem active_session_always_exists (inputs : list Input) w :
  sessions_ok (app w) → fresh_clocks inputs w →
  let st := app (interact inputs w) in
  sessions_ok st ∧ is_Some (activeSession st).
Proof.
  intros Hok Hfresh st.
  assert (Hst : sessions_ok st).
  { subst st. revert w Hok Hfresh.
    induction inputs as [|i inputs IH]; intros w Hok Hf; [done|].
    destruct Hf as [Hnow Hfresh].
    rewrite interact_cons. apply IH; [|done]. clear IH Hfresh.
    destruct i as [e selection | value | i | i | now | k o]; cbn [react].
    - by apply sessions_ok_handleKeyDown.
    - done.
    - destruct (sessions (app w) !! i) as [s|] eqn:Hi; [|done].
      by eapply sessions_ok_select.
    - destruct (1 <? _)%nat eqn:Hmany; [|done]. apply Nat.ltb_lt in Hmany.
      destruct (sessions (app w) !! i) as [s|] eqn:Hi; [|done].
      apply sessions_ok_closeTab; [done| |done].
      apply (list_elem_of_fmap_2 id). by eapply list_elem_of_lookup_2.
    - by apply sessions_ok_createNewTab.
    - simpl. destruct (inflight w !! k); [|done]. by apply sessions_ok_resume. }
  split; [done|]. destruct Hst as (_ & _ & Hin).
  apply list_elem_of_fmap in Hin as (s & Hs & Hin).
  unfold activeSession.
  destruct (List.find _ (sessions st)) eqn:Hfind; [by eexists|].
  apply list_elem_of_In in Hin.
  pose proof (find_none _ _ Hfind s Hin) as Hno. simpl in Hno.
  apply bool_decide_eq_false in Hno. by rewrite Hs in Hno.
Qed.

Lemma active_session_always_exists_witness :
  let enter := {| ctrlKey := false; key := "Enter" |} in
  let inputs := [ ClickNew 1700000000000; Change "ls"; KeyDown enter "";
                  ClickClose 1; Arrives 0 (NetworkError "gone"); ClickNew 1700000000001;
                  ClickTab 0; ClickClose 0 ] in
  let st := app (interact inputs (idle (bootstrap initial))) in
  sessions_ok st ∧ is_Some (activeSession st).
Proof.
  intros enter inputs st.
  apply (active_session_always_exists inputs (idle (bootstrap initial))).
  - split; [discriminate|]. split; [apply NoDup_singleton | by left].
  - cbn [fresh_clocks inputs]. repeat split; vm_compute;
      intros Hin; apply list_elem_of_In in Hin; simpl in Hin; intuition discriminate.
Defined.

End SessionInvariantFacts.

(** ** The scrollback only grows *)

Section ScrollbackFacts.

Import Terminal Ui.

Implicit Types (st : State) (w : World) (l : list TerminalSession) (sid : string).

Lemma grown_refl l : grown l l.
Proof.
  intros i s Hi. exists []. rewrite Hi, app_nil_r. by destruct s.
Qed.

Lemma grown_trans l1 l2 l3 : grown l1 l2 → grown l2 l3 → grown l1 l3.
Proof.
  intros H12 H23 i s Hi.
  destruct (H12 i s Hi) as [es1 H1]. destruct (H23 i _ H1) as [es2 H2].
  exists (es1 ++ es2)%list. rewrite H2. simpl. by rewrite <- app_assoc.
Qed.

Lemma grown_extend sid (es : list TerminalEntry) l : grown l (extend sid es l).
Proof.
  intros i s Hi. destruct (decide (id s = sid)) as [Heq|Hne].
  - exists es. by apply extend_lookup.
  - exists []. rewrite (extend_lookup_other _ _ _ _ _ Hi Hne), app_nil_r. by destruct s.
Qed.

Lemma grown_app l (more : list TerminalSession) : grown l (l ++ more).
Proof.
  intros i s Hi. exists []. rewrite (lookup_app_l_Some _ _ _ _ Hi), app_nil_r.
  by destruct s.
Qed.

Lemma grown_handleKeyDown (e : KeyboardEvent) (selection : string) w :
  ¬ erasing (KeyDown e selection) w →
  grown (sessions (app w)) (sessions (app (handleKeyDown e selection w))).
Proof.
  intros Hgentle. unfold handleKeyDown.
  repeat match goal with
         | |- context [if ?b then _ else _] => destruct b eqn:?
         end;
    try apply grown_refl; cbn [on_app app].
  - rewrite cancelCommand_sessions. apply grown_extend.
  - apply grown_extend.
  - exfalso. apply Hgentle. left.
    match goal with
    | H : ctrlKey e && bool_decide (key e = "l") = true |- _ =>
        apply andb_true_iff in H as [Hc Hk]; apply bool_decide_eq_true in Hk
    end. done.
  - cbn [step].
    destruct (executeCommand_cases (currentCommand (app w)) (app w))
      as [H | [[Hclear H] | (_ & _ & _ & H)]]; rewrite H; cbn [app].
    + apply grown_refl.
    + exfalso. apply Hgentle. right. split; [|done].
      match goal with
      | H : bool_decide (key e = "Enter") && _ = true |- _ =>
          apply andb_true_iff in H as [Hk _]; by apply bool_decide_eq_true in Hk
      end.
    + apply grown_extend.
Qed.

(** X6. As long as nobody clears (Ctrl+L, or Enter on [clear]) and no tab
    is closed, every session keeps its place, id and name, and its history
    only gets longer: the Entries it had are still there, in order, in
    front of whatever was appended, whatever else is typed, clicked or
    answered. *)
Theorem scrollback_only_grows (inputs : list Input) w :
  gentle inputs w →
  grown (sessions (app w)) (sessions (app (interact inputs w))).
Proof.
  revert w. induction inputs as [|i inputs IH]; intros w Hg; [apply grown_refl|].
  destruct Hg as [Hi Hg]. rewrite interact_cons.
  eapply grown_trans; [|by apply IH]. clear IH Hg.
  destruct i as [e selection | value | i | i | now | k o]; cbn [react].
  - by apply grown_handleKeyDown.
  - apply grown_refl.
  - destruct (sessions (app w) !! i); apply grown_refl.
  - by destruct Hi.
  - apply grown_app.
  - simpl. destruct (inflight w !! k) as [p|]; [|apply grown_refl].
    destruct (resume_cases p o (app w)) as [-> | [_ ->]];
      [apply grown_refl | apply grown_extend].
Qed.

Lemma scrollback_only_grows_witness :
  let enter := {| ctrlKey := false; key := "Enter" |} in
  let ctrl_c := {| ctrlKey := true; key := "c" |} in
  let w := interact [Change "ls"; KeyDown enter ""; Arrives 0 (NetworkError "x")]
             (idle (bootstrap initial)) in
  let inputs := [ ClickNew 5; ClickTab 0; Change "sleep 9"; KeyDown enter "";
                  KeyDown ctrl_c ""; Arrives 0 (NetworkError "late") ] in
  grown (sessions (app w)) (sessions (app (interact inputs w))).
Proof.
  intros enter ctrl_c w inputs. apply scrollback_only_grows.
  cbn [gentle inputs erasing ctrlKey key].
  repeat split; try tauto; intros [[? ?] | [? ?]]; discriminate.
Defined.

End ScrollbackFacts.

(** ** A submitted command, from its Entry to its outcome *)

Section CommandOutcomeClaims.

Import Terminal Ui.

Implicit Types (st : State) (w : World) (p : Pending) (o : FetchOutcome).

Lemma grown_step w (e : Event) :
  ¬ clears e → grown (sessions (app w)) (sessions (app (step w e))).
Proof.
  intros Hkeep. destruct e as [command | | sid | now | sid | | k o]; cbn [step].
  - destruct (executeCommand_cases command (app w))
      as [H | [[Hclear H] | (_ & _ & _ & H)]]; rewrite H; cbn [app].
    + apply grown_refl.
    + by destruct Hkeep.
    + apply grown_extend.
  - cbn [on_app app]. rewrite cancelCommand_sessions. apply grown_extend.
  - apply grown_refl.
  - apply grown_app.
  - by destruct Hkeep.
  - by destruct Hkeep.
  - destruct (inflight w !! k) as [p|]; [|apply grown_refl]. cbn [app].
    destruct (resume_cases p o (app w)) as [-> | [_ ->]];
      [apply grown_refl | apply grown_extend].
Qed.

Lemma grown_run (es : list Event) w :
  Forall (λ e, ¬ clears e) es → grown (sessions (app w)) (sessions (app (run es w))).
Proof.
  revert w. induction es as [|e es IH]; intros w Hes; [apply grown_refl|].
  apply Forall_cons in Hes as [He Hes]. rewrite run_cons.
  eapply grown_trans; [by apply grown_step | by apply IH].
Qed.

(** No handler but [cancelCommand] touches the flag of a controller. *)
Lemma controllers_step w (e : Event) :
  e ≠ Cancel →
  ∃ more, controllers (app (step w e)) = (controllers (app w) ++ more)%list.
Proof.
  intros Hne. destruct e as [command | | sid | now | sid | | k o]; cbn [step];
    try done; try (exists []; by rewrite app_nil_r).
  - destruct (executeCommand_cases command (app w))
      as [H | [[_ H] | (_ & _ & _ & H)]]; rewrite H; cbn [app].
    + exists []. by rewrite app_nil_r.
    + exists []. by rewrite app_nil_r.
    + by exists [false].
  - exists []. rewrite app_nil_r. cbn [on_app app]. unfold latest, closeTab.
    destruct (_ =? _)%nat; [done|]. by case_decide.
  - exists []. rewrite app_nil_r.
    destruct (inflight w !! k) as [p|]; [|done]. cbn [app]. apply controllers_resume.
Qed.

Lemma not_aborted_run (es : list Event) w (c : nat) :
  Forall (λ e, e ≠ Cancel) es →
  controllers (app w) !! c = Some false → aborted c (app (run es w)) = false.
Proof.
  revert w. induction es as [|e es IH]; intros w Hes Hc.
  - unfold aborted. rewrite run_nil, Hc. done.
  - apply Forall_cons in Hes as [He Hes]. rewrite run_cons. apply IH; [done|].
    destruct (controllers_step w e He) as [more ->].
    by apply lookup_app_l_Some.
Qed.

(** C5, amended. A command whose trimmed text is neither empty nor [clear]
    is submitted while a session [A] is active. One command Entry, ["$ "]
    followed by the text as typed, is appended at once to [A], and one
    request goes in flight. Whatever happens next, as long as nothing clears
    a terminal and no tab is closed every session keeps its place and its
    history only grows, so the command Entry stays in the history of [A];
    and the request is not aborted as long as nothing is cancelled. When the
    request settles without having been aborted, the Entries of exactly one
    outcome are appended at that moment, at the end of the history, to the
    sessions whose id is [A]: one error Entry, or an output Entry and/or an
    error Entry for a non-empty stdout and stderr, or nothing when both are
    empty; the request is then no longer in flight. When it settles after
    having been aborted it changes nothing. When the request settles at
    once, the history of [A] ends with the command Entry and the Entries of
    the outcome; when the command is cancelled at once, while [A] is
    active, it ends with the command Entry and one [^C] error Entry, the
    request is aborted and adds nothing when it settles. No outcome Entry is
    a command Entry and an outcome has at most two Entries. *)
Theorem command_entry_then_one_outcome (command : string) w (es : list Event)
    (k : nat) o :
  JsString.trim command ≠ "" → JsString.trim command ≠ "clear" →
  activeSessionId (app w) ≠ "" →
  let A := activeSessionId (app w) in
  let p := {| captured_activeSessionId := A;
              captured_command := command;
              signal := length (controllers (app w)) |} in
  let w1 := step w (Submit command) in
  let w2 := run es w1 in
  let w3 := step w2 (Settle k o) in
  let k1 := length (inflight w) in
  (sessions (app w1) = extend A [command_entry command] (sessions (app w))
   ∧ inflight w1 = (inflight w ++ [p])%list)
  ∧ (Forall (λ e, ¬ clears e) es → grown (sessions (app w1)) (sessions (app w2)))
  ∧ (Forall (λ e, e ≠ Cancel) es → aborted (signal p) (app w2) = false)
  ∧ (inflight w2 !! k = Some p →
     inflight w3 = delete k (inflight w2)
     ∧ (aborted (signal p) (app w2) = false →
          sessions (app w3) = extend A (outcome_entries o) (sessions (app w2)))
     ∧ (aborted (signal p) (app w2) = true → app w3 = app w2))
  ∧ sessions (app (run [Submit command; Settle k1 o] w))
    = extend A (command_entry command :: outcome_entries o) (sessions (app w))
  ∧ (sessions (app (run [Submit command; Cancel] w))
     = extend A [command_entry command; cancel_entry] (sessions (app w))
     ∧ aborted (signal p) (app (run [Submit command; Cancel] w)) = true
     ∧ sessions (app (run [Submit command; Cancel; Settle k1 o] w))
       = extend A [command_entry command; cancel_entry] (sessions (app w)))
  ∧ Forall (λ e, type e ≠ Command) (outcome_entries o)
  ∧ (length (outcome_entries o) <= 2)%nat.
Proof.
  intros Hne Hclear Hactive A p w1 w2 w3 k1.
  destruct (step_submit command w Hne Hclear Hactive) as (st1 & Hstep & Hs & Ha & Hc & Hr).
  fold w1 A p in Hstep.
  destruct (submit_then_cancel command w Hne Hclear Hactive) as (Hs2 & Hin & Hab & _).
  split; [by rewrite Hstep|]. split; [intros Hes; by apply grown_run|].
  split; [|split; [|split; [|split; [|apply outcome_entries_shape]]]].
  - intros Hes. apply not_aborted_run; [done|].
    rewrite Hstep. cbn [app signal p]. rewrite Hc. by apply list_lookup_middle.
  - intros Hk. subst w3. rewrite (step_settle _ _ _ _ Hk). cbn [app inflight].
    split; [done|]. split.
    + intros Hlive. by rewrite resume_settled.
    + intros Hdead. by apply resume_aborted.
  - by apply submit_then_settle.
  - split; [exact Hs2|]. split; [exact Hab|].
    change (run [Submit command; Cancel; Settle k1 o] w)
      with (step (run [Submit command; Cancel] w) (Settle k1 o)).
    erewrite step_settle by (rewrite Hin; by apply list_lookup_middle).
    simpl. rewrite resume_aborted by done. exact Hs2.
Qed.

Lemma command_entry_then_one_outcome_witness :
  let w := idle (bootstrap initial) in
  let o := Response 200 "OK"
             (Parsed {| stdout := Some "out"; stderr := Some "warn"; error := None;
                        exitCode := Some 0%Z |}) in
  let es := [NewTab 2; SelectTab "1"; Submit "   "] in
  sessions (app (run (Submit "make" :: es ++ [Settle 0 o]) w))
  = [ {| id := "1"; name := "Terminal 1";
         history := [ {| type := Command; content := "$ make" |};
                      {| type := Output; content := "out" |};
                      {| type := Error; content := "warn" |} ] |};
      {| id := "2"; name := "Terminal 2"; history := [] |} ]
  ∧ grown (sessions (app (step w (Submit "make"))))
          (sessions (app (run es (step w (Submit "make")))))
  ∧ sessions (app (run [Submit "make"; Settle 0 o] w))
    = [ {| id := "1"; name := "Terminal 1";
           history := [ {| type := Command; content := "$ make" |};
                        {| type := Output; content := "out" |};
                        {| type := Error; content := "warn" |} ] |} ].
Proof.
  intros w o es.
  assert (H1 : JsString.trim "make" ≠ "") by (vm_compute; discriminate).
  assert (H2 : JsString.trim "make" ≠ "clear") by (vm_compute; discriminate).
  assert (H3 : activeSessionId (app w) ≠ "") by (vm_compute; discriminate).
  destruct (command_entry_then_one_outcome "make" w es 0 o H1 H2 H3)
    as (_ & Hgrown & Hlive & Hsettle & Hatonce & _).
  assert (H4 : Forall (λ e, ¬ clears e) es)
    by (repeat constructor; vm_compute; (tauto || discriminate)).
  assert (H5 : Forall (λ e, e ≠ Cancel) es) by (repeat constructor; discriminate).
  destruct Hsettle as (_ & Hs & _); [vm_compute; reflexivity|].
  split; [|split; [by apply Hgrown|]].
  - etransitivity; [exact (Hs (Hlive H5))|]. vm_compute. reflexivity.
  - etransitivity; [exact Hatonce|]. vm_compute. reflexivity.
Defined.

(** C5 as stated fails in these runs, all on one session that is active.
    A string of blanks is not empty and is not [clear], yet submitting it
    appends no command Entry. The text [" clear "] is not [clear] either,
    yet it appends nothing and empties the history. A command whose request
    succeeds with an empty stdout and an empty stderr gets no outcome Entry
    at all. When the tab of the command is closed before the answer, the
    answer is appended nowhere; when the terminal is cleared before the
    answer, the outcome Entry has no command Entry before it. And when
    another tab is selected before the command is cancelled, the [^C] Entry
    goes to that tab: the issuing session keeps its command Entry without
    any outcome, also after the aborted request settles. *)
Lemma submitted_command_without_entry_or_outcome :
  let st := bootstrap initial in
  let two := latest (createNewTab 2) (bootstrap initial) in
  let silent := Response 200 "OK"
                  (Parsed {| stdout := Some ""; stderr := Some ""; error := None;
                             exitCode := Some 0%Z |}) in
  let loud := Response 200 "OK"
                (Parsed {| stdout := Some "out"; stderr := None; error := None;
                           exitCode := Some 0%Z |}) in
  ("   " ≠ "" ∧ "   " ≠ "clear" ∧ activeSessionId st = "1"
   ∧ executeCommand "   " st = (st, None))
  ∧ (" clear " ≠ "" ∧ " clear " ≠ "clear"
     ∧ map history (sessions (app (run [Submit "ls"; Submit " clear "] (idle st))))
       = [[]])
  ∧ map history (sessions (app (run [Submit "true"; Settle 0 silent] (idle st))))
    = [[command_entry "true"]]
  ∧ (activeSessionId two = "2"
     ∧ sessions (app (run [Submit "make"; CloseTab "2"; Settle 0 loud] (idle two)))
       = [ {| id := "1"; name := "Terminal 1"; history := [] |} ])
  ∧ map history (sessions (app (run [Submit "make"; ClearScreen; Settle 0 loud] (idle st))))
    = [[ {| type := Output; content := "out" |} ]]
  ∧ map history
      (sessions (app (run [Submit "make"; SelectTab "1"; Cancel; Settle 0 loud] (idle two))))
    = [[cancel_entry]; [command_entry "make"]].
Proof.
  intros st two silent loud.
  repeat split; try discriminate; vm_compute; reflexivity.
Qed.

End CommandOutcomeClaims.

(** ** A cancelled command and the next one *)

Section CancelThenSubmitFacts.

Import Terminal.

Implicit Types (st : State) (w : World) (p : Pending) (o : FetchOutcome).

(** Everything [step] does for a submission that is sent. *)
Lemma step_submit_full (command : string) w :
  JsString.trim command ≠ "" → JsString.trim command ≠ "clear" →
  activeSessionId (app w) ≠ "" →
  let w' := step w (Submit command) in
  inflight w'
  = (inflight w ++
     [{| captured_activeSessionId := activeSessionId (app w);
         captured_command := command;
         signal := length (controllers (app w)) |}])%list
  ∧ sessions (app w')
    = extend (activeSessionId (app w)) [command_entry command] (sessions (app w))
  ∧ activeSessionId (app w') = activeSessionId (app w)
  ∧ controllers (app w') = (controllers (app w) ++ [false])%list
  ∧ abortControllerRef (app w') = Some (length (controllers (app w)))
  ∧ isLoading (app w') = true.
Proof.
  intros Hne Hclear Hactive w'. subst w'.
  destruct (executeCommand_sends command (app w) Hne Hclear Hactive)
    as (st' & Hexec & Hs & Ha & Hc & Hr & Hl & _).
  cbn [step]. rewrite Hexec. by repeat split.
Qed.

Lemma cancelCommand_isLoading st : isLoading (cancelCommand st) = false.
Proof. unfold cancelCommand. by destruct (abortControllerRef st). Qed.

(** X7. A command is cancelled and another one is submitted before the
    aborted request has settled. When the aborted request settles it
    changes nothing; in particular it does not clear the busy flag of the
    command that is running. The second command then completes as usual:
    the history of the session ends with the first command Entry, [^C], the
    second command Entry and the Entries of the second outcome; the busy
    flag and the controller reference are cleared. The two requests may
    settle in either order. *)
Theorem new_command_after_cancel (a b : string) w (oa ob : FetchOutcome) :
  JsString.trim a ≠ "" → JsString.trim a ≠ "clear" →
  JsString.trim b ≠ "" → JsString.trim b ≠ "clear" →
  activeSessionId (app w) ≠ "" →
  let A := activeSessionId (app w) in
  let k := length (inflight w) in
  let w3 := run [Submit a; Cancel; Submit b] w in
  let late := step w3 (Settle k oa) in
  app late = app w3
  ∧ isLoading (app late) = true
  ∧ ∀ w', w' = step late (Settle k ob) ∨ w' = step (step w3 (Settle (S k) ob)) (Settle k oa) →
      sessions (app w')
      = extend A ([command_entry a; cancel_entry; command_entry b] ++ outcome_entries ob)
          (sessions (app w))
      ∧ isLoading (app w') = false
      ∧ abortControllerRef (app w') = None
      ∧ inflight w' = inflight w.
Proof.
  intros Ha1 Ha2 Hb1 Hb2 Hactive A k w3 late.
  set (c := length (controllers (app w))).
  set (pa := {| captured_activeSessionId := A; captured_command := a; signal := c |}).
  set (pb := {| captured_activeSessionId := A; captured_command := b; signal := S c |}).
  destruct (step_submit_full a w Ha1 Ha2 Hactive) as (Hf1 & Hs1 & Hact1 & Hc1 & Hr1 & _).
  set (w1 := step w (Submit a)) in *.
  set (w2 := step w1 Cancel).
  assert (Hs2 : sessions (app w2)
                = extend A [command_entry a; cancel_entry] (sessions (app w))).
  { subst w2. cbn [step on_app app].
    by rewrite cancelCommand_sessions, Hact1, Hs1, (extend_extend _ [_] [_]). }
  assert (Hact2 : activeSessionId (app w2) = A)
    by (subst w2; cbn [step on_app app]; by rewrite cancelCommand_active).
  assert (Hc2 : controllers (app w2) = <[c := true]> (controllers (app w) ++ [false])%list).
  { subst w2. cbn [step on_app app].
    by rewrite (cancelCommand_controllers _ _ Hr1), Hc1. }
  assert (Hlen2 : length (controllers (app w2)) = S c).
  { rewrite Hc2, length_insert, length_app. simpl. subst c. lia. }
  assert (Hf2 : inflight w2 = (inflight w ++ [pa])%list) by exact Hf1.
  assert (Hactive2 : activeSessionId (app w2) ≠ "") by (by rewrite Hact2).
  destruct (step_submit_full b w2 Hb1 Hb2 Hactive2) as (Hf3 & Hs3 & Hact3 & Hc3 & Hr3 & Hl3).
  change (step w2 (Submit b)) with w3 in *.
  rewrite Hact2, Hlen2, Hf2 in Hf3. fold pb in Hf3.
  rewrite Hact2, Hs2, (extend_extend _ [_; _] [_]) in Hs3. simpl in Hs3.
  assert (Haborted_a : aborted c (app w3) = true).
  { apply (aborted_step w2 (Submit b)). by apply aborted_after_abort. }
  assert (Hlive_b : aborted (S c) (app w3) = false).
  { unfold aborted. rewrite Hc3. by rewrite list_lookup_middle. }
  assert (Hka : inflight w3 !! k = Some pa).
  { rewrite Hf3, <- app_assoc. by apply list_lookup_middle. }
  assert (Hkb : inflight w3 !! S k = Some pb).
  { rewrite Hf3. apply list_lookup_middle. rewrite length_app. simpl. subst k. lia. }
  assert (Hlate : late = {| app := app w3; inflight := (inflight w ++ [pb])%list |}).
  { subst late. rewrite (step_settle _ _ _ _ Hka), resume_aborted by done.
    f_equal. rewrite Hf3, <- app_assoc. by apply delete_middle. }
  split; [by rewrite Hlate|]. split; [by rewrite Hlate|].
  intros w' [-> | ->].
  - rewrite Hlate.
    erewrite step_settle by (simpl; by apply list_lookup_middle).
    simpl. rewrite resume_settled by done. simpl.
    rewrite Hs3, (extend_extend _ [_; _; _]). subst k. by rewrite delete_middle, app_nil_r.
  - rewrite (step_settle _ _ _ _ Hkb), resume_settled by done.
    erewrite step_settle; last first.
    { simpl. rewrite Hf3. replace (S k) with (length (inflight w ++ [pa]))
        by (rewrite length_app; simpl; subst k; lia).
      rewrite delete_middle, app_nil_r. by apply list_lookup_middle. }
    rewrite resume_aborted by done. simpl.
    rewrite Hs3, (extend_extend _ [_; _; _]).
    split; [done|]. split; [done|]. split; [done|].
    rewrite Hf3. replace (S k) with (length (inflight w ++ [pa]))
      by (rewrite length_app; simpl; subst k; lia).
    rewrite delete_middle, app_nil_r. subst k. rewrite delete_middle. by rewrite app_nil_r.
Qed.

Lemma new_command_after_cancel_witness :
  let w := idle (bootstrap initial) in
  let answer := Response 200 "OK"
                  (Parsed {| stdout := Some "/root"; stderr := None; error := None;
                             exitCode := Some 0%Z |}) in
  let w3 := run [Submit "sleep 9"; Cancel; Submit "pwd"] w in
  isLoading (app (step w3 (Settle 0 (NetworkError "aborted")))) = true
  ∧ sessions (app (step (step w3 (Settle 0 (NetworkError "aborted"))) (Settle 0 answer)))
    = [ {| id := "1"; name := "Terminal 1";
           history := [ {| type := Command; content := "$ sleep 9" |};
                        {| type := Error; content := "^C" |};
                        {| type := Command; content := "$ pwd" |};
                        {| type := Output; content := "/root" |} ] |} ].
Proof.
  intros w answer w3.
  assert (H1 : JsString.trim "sleep 9" ≠ "") by (vm_compute; discriminate).
  assert (H2 : JsString.trim "sleep 9" ≠ "clear") by (vm_compute; discriminate).
  assert (H3 : JsString.trim "pwd" ≠ "") by (vm_compute; discriminate).
  assert (H4 : JsString.trim "pwd" ≠ "clear") by (vm_compute; discriminate).
  assert (H5 : activeSessionId (app w) ≠ "") by (vm_compute; discriminate).
  destruct (new_command_after_cancel "sleep 9" "pwd" w (NetworkError "aborted") answer
              H1 H2 H3 H4 H5) as (_ & Hbusy & Hdone).
  split; [exact Hbusy|].
  destruct (Hdone _ (or_introl eq_refl)) as (Hs & _).
  etransitivity; [exact Hs|]. vm_compute. reflexivity.
Defined.

End CancelThenSubmitFacts.

(** ** Saving and restoring the sessions *)

Section PersistFacts.

Import JsString Terminal Persist.


Lemma hex4_control (c : ascii) :
  (code c <? 32)%N = true →
  Json.hex4 "0" "0" (hex_digit (code c / 16)) (hex_digit (code c mod 16)) = Some (code c).
Proof.
  destruct c as [[] [] [] [] [] [] [] []]; vm_compute; intros H; first [reflexivity | discriminate H].
Qed.

Lemma escaped_small (c : ascii) : escaped c = true → (code c < 128)%N.
Proof.
  unfold escaped. intros H.
  apply orb_true_iff in H as [H|H]; [apply orb_true_iff in H as [H|H]|].
  - apply N.eqb_eq in H. lia.
  - apply N.eqb_eq in H. lia.
  - apply N.ltb_lt in H. lia.
Qed.

Lemma utf8_small (u : N) : (u < 128)%N → Json.utf8 u = [Json.byte u].
Proof. intros H. unfold Json.utf8. apply N.ltb_lt in H. by rewrite H. Qed.

Lemma is_high_small (u : N) : (u < 128)%N → Json.is_high u = false.
Proof.
  intros H. unfold Json.is_high. apply andb_false_iff. left. apply N.leb_gt. lia.
Qed.

Lemma encode_chars_of (s : string) :
  Json.encode (chars_of s) = list_ascii_of_string s.
Proof.
  induction s as [|c r IH]; [done|]. cbn [chars_of list_ascii_of_string].
  destruct (escaped c) eqn:Hc.
  - pose proof (escaped_small c Hc) as Hsmall.
    assert (Hstep : Json.encode (Json.Unit (code c) :: chars_of r)
                    = (Json.utf8 (code c) ++ Json.encode (chars_of r))%list).
    { cbn [Json.encode]. destruct (chars_of r) as [|[b|v] t]; try done.
      by rewrite (is_high_small _ Hsmall). }
    rewrite Hstep, IH, utf8_small by done.
    unfold Json.byte, code. by rewrite ascii_N_embedding.
  - cbn [Json.encode]. by rewrite IH.
Qed.

Lemma append_assoc (a b c : string) : (a +:+ b) +:+ c = a +:+ (b +:+ c).
Proof.
  induction a as [|x a IH]; [done|].
  change (String x ((a +:+ b) +:+ c) = String x (a +:+ (b +:+ c))). by rewrite IH.
Qed.

Lemma append_nil_l (s : string) : "" +:+ s = s.
Proof. reflexivity. Qed.

Lemma append_cons (a : ascii) (x y : string) : String a x +:+ y = String a (x +:+ y).
Proof. reflexivity. Qed.

Lemma parse_chars_escape (e : ascii) (u : N) (rest : string) (acc : list Json.char) :
  (code e =? 117)%N = false → Json.escape e = Some u →
  Json.parse_chars (String bs (String e rest)) acc
  = Json.parse_chars rest (Json.Unit u :: acc).
Proof.
  intros H117 Hesc. cbn [Json.parse_chars].
  change (code bs =? 34)%N with false. change (code bs =? 92)%N with true.
  cbv iota. by rewrite H117, Hesc.
Qed.

Lemma parse_chars_unicode (h1 h2 h3 h4 : ascii) (u : N) (rest : string)
    (acc : list Json.char) :
  Json.hex4 h1 h2 h3 h4 = Some u →
  Json.parse_chars
    (String bs (String "u" (String h1 (String h2 (String h3 (String h4 rest)))))) acc
  = Json.parse_chars rest (Json.Unit u :: acc).
Proof.
  intros Hhex. cbn [Json.parse_chars].
  change (code bs =? 34)%N with false. change (code bs =? 92)%N with true.
  change (code "u" =? 117)%N with true. cbv iota. by rewrite Hhex.
Qed.

Lemma parse_chars_raw (c : ascii) (rest : string) (acc : list Json.char) :
  (code c =? 34)%N = false → (code c =? 92)%N = false → (code c <? 32)%N = false →
  Json.parse_chars (String c rest) acc = Json.parse_chars rest (Json.Raw c :: acc).
Proof. intros H1 H2 H3. cbn [Json.parse_chars]. by rewrite H1, H2, H3. Qed.

Lemma parse_chars_close (rest : string) (acc : list Json.char) :
  Json.parse_chars (String dq rest) acc = Some (List.rev acc, rest).
Proof. reflexivity. Qed.

(** Reading back the quoted form of a plain text. *)
Lemma parse_chars_quote (s rest : string) (acc : list Json.char) :
  plain s = true →
  Json.parse_chars (quote_chars s +:+ String dq rest) acc
  = Some ((List.rev acc ++ chars_of s)%list, rest).
Proof.
  revert acc. induction s as [|c r IH]; intros acc Hplain.
  - cbn [quote_chars chars_of]. by rewrite append_nil_l, parse_chars_close, app_nil_r.
  - assert (Hr : plain r = true) by (cbn [plain] in Hplain; by apply andb_true_iff in Hplain as [_ ?]).
    assert (Hnext : ∀ ch, Json.parse_chars (quote_chars r +:+ String dq rest) (ch :: acc)
                          = Some ((List.rev acc ++ ch :: chars_of r)%list, rest)).
    { intros ch. rewrite IH by done. cbn [List.rev]. by rewrite <- app_assoc. }
    cbn [quote_chars chars_of]. unfold escaped.
    destruct (code c =? 34)%N eqn:H34.
    { apply N.eqb_eq in H34. cbn [orb]. rewrite !append_cons.
      rewrite (parse_chars_escape dq 34) by reflexivity. by rewrite Hnext, H34. }
    destruct (code c =? 92)%N eqn:H92.
    { apply N.eqb_eq in H92. cbn [orb]. rewrite !append_cons.
      rewrite (parse_chars_escape bs 92) by reflexivity. by rewrite Hnext, H92. }
    cbn [orb].
    destruct (code c =? 8)%N eqn:H8.
    { apply N.eqb_eq in H8. rewrite H8. rewrite !append_cons.
      rewrite (parse_chars_escape "b" 8) by reflexivity. by rewrite Hnext. }
    destruct (code c =? 12)%N eqn:H12.
    { apply N.eqb_eq in H12. rewrite H12. rewrite !append_cons.
      rewrite (parse_chars_escape "f" 12) by reflexivity. by rewrite Hnext. }
    destruct (code c =? 10)%N eqn:H10.
    { apply N.eqb_eq in H10. rewrite H10. rewrite !append_cons.
      rewrite (parse_chars_escape "n" 10) by reflexivity. by rewrite Hnext. }
    destruct (code c =? 13)%N eqn:H13.
    { apply N.eqb_eq in H13. rewrite H13. rewrite !append_cons.
      rewrite (parse_chars_escape "r" 13) by reflexivity. by rewrite Hnext. }
    destruct (code c =? 9)%N eqn:H9.
    { apply N.eqb_eq in H9. rewrite H9. rewrite !append_cons.
      rewrite (parse_chars_escape "t" 9) by reflexivity. by rewrite Hnext. }
    destruct (code c <? 32)%N eqn:H32.
    { rewrite !append_cons.
      rewrite (parse_chars_unicode _ _ _ _ _ _ _ (hex4_control c H32)). by rewrite Hnext. }
    cbn [plain] in Hplain. apply andb_true_iff in Hplain as [Hlone _].
    destruct r as [|b [|d r2]];
      [| |apply negb_true_iff in Hlone; rewrite Hlone];
      rewrite !append_cons, parse_chars_raw by done; by rewrite Hnext.
Qed.

Lemma parse_string_quote (s rest : string) :
  plain s = true →
  Json.parse_string (quote_chars s +:+ String dq rest) = Some (s, rest).
Proof.
  intros Hplain. unfold Json.parse_string.
  rewrite parse_chars_quote by done.
  change (List.rev [] ++ chars_of s)%list with (chars_of s).
  by rewrite encode_chars_of, string_of_list_ascii_of_string.
Qed.

Lemma quote_append (s x : string) :
  quote s +:+ x = String dq (quote_chars s +:+ String dq x).
Proof. unfold quote. by rewrite append_cons, append_assoc. Qed.

Lemma parse_value_string (f : nat) (s rest : string) :
  plain s = true →
  Json.parse_value (S f) (quote s +:+ rest) = Some (Json.JString s, rest).
Proof.
  intros Hplain. rewrite quote_append.
  change (Json.parse_value (S f) (String dq (quote_chars s +:+ String dq rest)))
    with (match Json.parse_string (quote_chars s +:+ String dq rest) with
          | Some (v, k) => Some (Json.JString v, k)
          | None => None
          end).
  by rewrite parse_string_quote.
Qed.

(** One member of an object, followed by a comma or by the closing brace. *)
Lemma parse_members_comma (f : nat) (key X Y : string) (v : Json.json)
    (acc : list (string * Json.json)) :
  plain key = true →
  Json.parse_value f X = Some (v, String "," Y) →
  Json.parse_members (S f) (quote key +:+ String ":" X) acc
  = Json.parse_members f (Json.skip_ws Y) ((key, v) :: acc).
Proof.
  intros Hkey Hv. rewrite quote_append.
  change (Json.parse_members (S f) (String dq (quote_chars key +:+ String dq (String ":" X))) acc)
    with (match Json.parse_string (quote_chars key +:+ String dq (String ":" X)) with
          | None => None
          | Some (key, r1) =>
              match Json.skip_ws r1 with
              | EmptyString => None
              | String d r2 =>
                  if negb (code d =? 58)%N then None else
                  match Json.parse_value f r2 with
                  | None => None
                  | Some (v, r3) =>
                      match Json.skip_ws r3 with
                      | EmptyString => None
                      | String e r4 =>
                          if (code e =? 44)%N
                          then Json.parse_members f (Json.skip_ws r4) ((key, v) :: acc)
                          else if (code e =? 125)%N
                          then Some (Json.JObject (List.rev ((key, v) :: acc)), r4)
                          else None
                      end
                  end
              end
          end).
  rewrite parse_string_quote by done.
  change (Json.skip_ws (String ":" X)) with (String ":" X). cbv iota.
  change (negb (code ":" =? 58)%N) with false. cbv iota. rewrite Hv.
  change (Json.skip_ws (String "," Y)) with (String "," Y). reflexivity.
Qed.

Lemma parse_members_close (f : nat) (key X Y : string) (v : Json.json)
    (acc : list (string * Json.json)) :
  plain key = true →
  Json.parse_value f X = Some (v, String "}" Y) →
  Json.parse_members (S f) (quote key +:+ String ":" X) acc
  = Some (Json.JObject (List.rev ((key, v) :: acc)), Y).
Proof.
  intros Hkey Hv. rewrite quote_append.
  change (Json.parse_members (S f) (String dq (quote_chars key +:+ String dq (String ":" X))) acc)
    with (match Json.parse_string (quote_chars key +:+ String dq (String ":" X)) with
          | None => None
          | Some (key, r1) =>
              match Json.skip_ws r1 with
              | EmptyString => None
              | String d r2 =>
                  if negb (code d =? 58)%N then None else
                  match Json.parse_value f r2 with
                  | None => None
                  | Some (v, r3) =>
                      match Json.skip_ws r3 with
                      | EmptyString => None
                      | String e r4 =>
                          if (code e =? 44)%N
                          then Json.parse_members f (Json.skip_ws r4) ((key, v) :: acc)
                          else if (code e =? 125)%N
                          then Some (Json.JObject (List.rev ((key, v) :: acc)), r4)
                          else None
                      end
                  end
              end
          end).
  rewrite parse_string_quote by done.
  change (Json.skip_ws (String ":" X)) with (String ":" X). cbv iota.
  change (negb (code ":" =? 58)%N) with false. cbv iota. rewrite Hv.
  change (Json.skip_ws (String "}" Y)) with (String "}" Y). reflexivity.
Qed.

(** One element of an array, followed by a comma or by the closing bracket. *)
Lemma parse_elements_comma (f : nat) (s Y : string) (v : Json.json) (acc : list Json.json) :
  Json.parse_value f s = Some (v, String "," Y) →
  Json.parse_elements (S f) s acc = Json.parse_elements f Y (v :: acc).
Proof.
  intros Hv. cbn [Json.parse_elements]. rewrite Hv.
  change (Json.skip_ws (String "," Y)) with (String "," Y). reflexivity.
Qed.

Lemma parse_elements_close (f : nat) (s Y : string) (v : Json.json) (acc : list Json.json) :
  Json.parse_value f s = Some (v, String "]" Y) →
  Json.parse_elements (S f) s acc = Some (Json.JArray (List.rev (v :: acc)), Y).
Proof.
  intros Hv. cbn [Json.parse_elements]. rewrite Hv.
  change (Json.skip_ws (String "]" Y)) with (String "]" Y). reflexivity.
Qed.

Lemma parse_value_object (f : nat) (r : string) :
  Json.parse_value (S f) (String "{" (String dq r))
  = Json.parse_members f (String dq r) [].
Proof. reflexivity. Qed.

Lemma parse_value_empty_array (f : nat) (r : string) :
  Json.parse_value (S f) (String "[" (String "]" r)) = Some (Json.JArray [], r).
Proof. reflexivity. Qed.

Lemma parse_value_array (f : nat) (r : string) :
  Json.parse_value (S f) (String "[" (String "{" r))
  = Json.parse_elements f (String "{" r) [].
Proof. reflexivity. Qed.

Lemma append_single (a : ascii) (x : string) : String a "" +:+ x = String a x.
Proof. reflexivity. Qed.

Lemma append_nil_r (s : string) : s +:+ "" = s.
Proof. induction s as [|a s IH]; [done|]. by rewrite append_cons, IH. Qed.

Lemma parse_value_object_quote (f : nat) (key Y : string) :
  Json.parse_value (S f) (String "{" (quote key +:+ Y))
  = Json.parse_members f (quote key +:+ Y) [].
Proof. rewrite quote_append. reflexivity. Qed.

Lemma skip_ws_quote (key Y : string) : Json.skip_ws (quote key +:+ Y) = quote key +:+ Y.
Proof. rewrite quote_append. reflexivity. Qed.

Lemma plain_type_text (t : EntryType) : plain (type_text t) = true.
Proof. by destruct t. Qed.

Lemma stringify_entry_append (e : TerminalEntry) (rest : string) :
  stringify_entry e +:+ rest
  = String "{" (quote "type" +:+ String ":" (quote (type_text (type e)) +:+ String ","
      (quote "content" +:+ String ":" (quote (content e) +:+ String "}" rest)))).
Proof. unfold stringify_entry. by rewrite !append_assoc, !append_single. Qed.

Lemma parse_entry (f : nat) (e : TerminalEntry) (rest : string) :
  plain_entry e = true → (4 <= f)%nat →
  Json.parse_value f (stringify_entry e +:+ rest) = Some (json_of_entry e, rest).
Proof.
  intros Hplain Hf. destruct f as [|[|[|[|f]]]]; try lia.
  rewrite stringify_entry_append, parse_value_object_quote.
  erewrite parse_members_comma; [|reflexivity|by apply parse_value_string, plain_type_text].
  rewrite skip_ws_quote.
  erewrite parse_members_close; [|reflexivity|by apply parse_value_string].
  reflexivity.
Qed.

(** The elements of a non-empty array, up to the closing bracket. *)
Lemma parse_joined {A : Type} (str : A → string) (js : A → Json.json) (need : nat)
    (xs : list A) (acc : list Json.json) (f : nat) (rest : string) :
  Forall (λ x, ∀ f rest, (need <= f)%nat →
                 Json.parse_value f (str x +:+ rest) = Some (js x, rest)) xs →
  xs ≠ [] → (need + length xs <= f)%nat →
  Json.parse_elements f (join (map str xs) +:+ String "]" rest) acc
  = Some (Json.JArray (List.rev acc ++ map js xs), rest).
Proof.
  intros Hxs. revert acc f. induction Hxs as [|x xs Hx Hxs IH]; intros acc f Hne Hf; [done|].
  destruct f as [|f]; [simpl in Hf; lia|]. simpl in Hf.
  destruct xs as [|y ys].
  - cbn [map join]. erewrite parse_elements_close; [|apply Hx; lia].
    cbn [List.rev map]. done.
  - change (join (map str (x :: y :: ys)))
      with (str x +:+ "," +:+ join (map str (y :: ys))).
    rewrite !append_assoc, append_single.
    erewrite parse_elements_comma; [|apply Hx; lia].
    rewrite IH by (done || simpl in *; lia).
    cbn [List.rev map]. by rewrite <- app_assoc.
Qed.

Lemma parse_array {A : Type} (str : A → string) (js : A → Json.json) (need : nat)
    (xs : list A) (f : nat) (rest : string) :
  Forall (λ x, ∀ f rest, (need <= f)%nat →
                 Json.parse_value f (str x +:+ rest) = Some (js x, rest)) xs →
  (∀ x, ∃ t, str x = String "{" t) →
  (need + length xs + 1 <= f)%nat →
  Json.parse_value f (String "[" (join (map str xs) +:+ String "]" rest))
  = Some (Json.JArray (map js xs), rest).
Proof.
  intros Hxs Hbrace Hf. destruct f as [|f]; [lia|].
  destruct xs as [|x xs]; [apply parse_value_empty_array|].
  assert (Hstart : ∃ t, join (map str (x :: xs)) +:+ String "]" rest = String "{" t).
  { destruct (Hbrace x) as [t Ht]. cbn [map join]. rewrite Ht.
    destruct (map str xs); rewrite ?append_cons; by eexists. }
  destruct Hstart as [t Ht]. rewrite Ht, parse_value_array, <- Ht.
  rewrite (parse_joined str js need) by (done || simpl in *; lia). done.
Qed.

Lemma stringify_session_append (s : TerminalSession) (rest : string) :
  stringify_session s +:+ rest
  = String "{" (quote "id" +:+ String ":" (quote (id s) +:+ String ","
      (quote "name" +:+ String ":" (quote (name s) +:+ String ","
         (quote "history" +:+ String ":"
            (String "[" (join (map stringify_entry (history s))
                         +:+ String "]" (String "}" rest)))))))).
Proof. unfold stringify_session. by rewrite !append_assoc, !append_single. Qed.

Lemma forallb_Forall_plain (h : list TerminalEntry) :
  forallb plain_entry h = true → Forall (λ e, plain_entry e = true) h.
Proof. intros H. apply Forall_forall. intros e He. eapply forallb_forall in H; [done|]. by apply list_elem_of_In. Qed.

Lemma parse_session (f : nat) (s : TerminalSession) (rest : string) :
  plain_session s = true → (length (history s) + 9 <= f)%nat →
  Json.parse_value f (stringify_session s +:+ rest) = Some (json_of_session s, rest).
Proof.
  intros Hplain Hf. unfold plain_session in Hplain.
  apply andb_true_iff in Hplain as [Hplain Hh]. apply andb_true_iff in Hplain as [Hi Hn].
  destruct f as [|[|[|[|f]]]]; try lia.
  rewrite stringify_session_append, parse_value_object_quote.
  erewrite parse_members_comma; [|reflexivity|by apply parse_value_string].
  rewrite skip_ws_quote.
  erewrite parse_members_comma; [|reflexivity|by apply parse_value_string].
  rewrite skip_ws_quote.
  erewrite parse_members_close; [reflexivity|reflexivity|].
  apply (parse_array stringify_entry json_of_entry 4).
  - eapply Forall_impl; [by apply forallb_Forall_plain|].
    intros e He f' rest' Hf'. by apply parse_entry.
  - intros e. eexists. unfold stringify_entry. by rewrite append_single.
  - lia.
Qed.

(** The largest history of the collection. *)
Lemma history_bound (l : list TerminalSession) :
  ∃ n, Forall (λ s, (length (history s) <= n)%nat) l.
Proof.
  induction l as [|s l [n IH]]; [by exists 0%nat|].
  exists (length (history s) `max` n)%nat. constructor; [lia|].
  eapply Forall_impl; [exact IH|]. simpl. intros; lia.
Qed.

Lemma parse_stringify (l : list TerminalSession) :
  forallb plain_session l = true →
  Json.parse (stringify l) = Some (json_of_sessions l).
Proof.
  intros Hplain.
  assert (Hl : Forall (λ s, plain_session s = true) l).
  { apply Forall_forall. intros s Hs. eapply forallb_forall in Hplain; [done|].
    by apply list_elem_of_In. }
  destruct (history_bound l) as [n Hn].
  set (text := stringify l).
  assert (Hbig : ∀ f, (n + 9 + length l + 1 <= f)%nat →
                   Json.parse_value f text = Some (json_of_sessions l, "")).
  { intros f Hf. subst text. unfold stringify.
    rewrite append_single. rewrite <- (append_nil_r (join _ +:+ "]")).
    rewrite append_assoc, append_single.
    apply (parse_array stringify_session json_of_session (n + 9)); [| |lia].
    - apply Forall_forall. intros s Hs f' rest' Hf'.
      apply parse_session.
      + by eapply Forall_forall in Hl.
      + eapply Forall_forall in Hn; [|done]. simpl in Hn. lia.
    - intros s. eexists. unfold stringify_session. by rewrite append_single. }
  unfold Json.parse.
  rewrite <- (parse_fuel_enough text
                ((2 * String.length text + 2) `max` (n + 9 + length l + 1))) by lia.
  by rewrite Hbig by lia.
Qed.

Lemma as_entry_json (e : TerminalEntry) : as_entry (json_of_entry e) = Some e.
Proof. destruct e as [[] c]; reflexivity. Qed.

Lemma mapM_as_entry (h : list TerminalEntry) :
  mapM as_entry (map json_of_entry h) = Some h.
Proof.
  induction h as [|e h IH]; [done|].
  cbn [map mapM]. rewrite as_entry_json. simpl. by rewrite IH.
Qed.

Lemma as_session_json (s : TerminalSession) : as_session (json_of_session s) = Some s.
Proof.
  destruct s as [i n h]. unfold json_of_session, as_session.
  cbn [Json.member id name history]. simpl. by rewrite mapM_as_entry.
Qed.

Lemma as_sessions_json (l : list TerminalSession) :
  as_sessions (json_of_sessions l) = Some l.
Proof.
  unfold as_sessions, json_of_sessions.
  induction l as [|s l IH]; [done|].
  cbn [map mapM]. rewrite as_session_json. simpl. by rewrite IH.
Qed.

(** X8. What the two save effects write for a collection that is not empty
    is read back by the load effect as the same ordered collection, with
    every session's id, name and Entries (kind and text) as they were, and
    with the same active session. The texts are taken without lone
    surrogates. *)
Theorem save_then_restore (st st0 : State) (ls : Storage) :
  sessions st ≠ [] → forallb plain_session (sessions st) = true →
  activeSessionId st ≠ "" → activeSessionId st ∈ ids (sessions st) →
  loadSessions (save st ls) st0
  = Mounted (setActiveSessionId (activeSessionId st)
               (setSessions (λ _, sessions st) st0)).
Proof.
  intros Hne Hplain Hactive Hin. unfold save, saveSessions, saveActiveTab.
  destruct (sessions st) as [|s l] eqn:Hs; [done|]. rewrite <- Hs in *.
  replace (0 <? length (sessions st))%nat with true by (by rewrite Hs).
  rewrite (truthy_true _ Hactive). unfold loadSessions.
  cbn [terminal_sessions active_terminal_tab truthy_opt default from_option Datatypes.id].
  replace (truthy (stringify (sessions st))) with true
    by (unfold stringify; by rewrite append_single).
  rewrite parse_stringify, as_sessions_json by done.
  rewrite (truthy_true _ Hactive). cbn [andb].
  rewrite bool_decide_eq_true_2; [done|].
  apply Exists_exists. apply list_elem_of_fmap in Hin as (x & Hx & Hin). eauto.
Qed.

Lemma save_then_restore_witness :
  let quoted := String (ascii_of_N 34) ("hi" +:+ String (ascii_of_N 34) "") in
  let st := updateSessionHistory "1"
              {| type := Output; content := String (ascii_of_N 27) "[32m" +:+ quoted |}
              (updateSessionHistory "1" (command_entry ("echo " +:+ quoted))
                 (setActiveSessionId "1" (latest (createNewTab 1700000000000) (bootstrap initial)))) in
  loadSessions (save st {| terminal_sessions := None; active_terminal_tab := None |}) initial
  = Mounted (setActiveSessionId "1" (setSessions (λ _, sessions st) initial)).
Proof.
  intros quoted st.
  apply (save_then_restore st initial).
  - discriminate.
  - vm_compute. reflexivity.
  - discriminate.
  - vm_compute. by left.
Defined.

(** X9. Whenever the load effect installs at least one session, the active
    id it sets is the id of an installed session: the saved active id when
    it is not empty and is the id of one of them, and otherwise the id of
    the first one. A saved active id that points at a session that is gone
    never leaves the page without an active session. *)
Theorem restore_selects_a_session (ls : Storage) (st st' : State) :
  loadSessions ls st = Mounted st' →
  ∀ s rest, sessions st' = s :: rest →
    activeSessionId st'
    = match active_terminal_tab ls with
      | Some a => if decide (a ≠ "" ∧ a ∈ ids (s :: rest)) then a else id s
      | None => id s
      end
    ∧ activeSessionId st' ∈ ids (sessions st').
Proof.
  intros Hload s rest Hs.
  assert (Hactive : activeSessionId st'
                    = match active_terminal_tab ls with
                      | Some a => if decide (a ≠ "" ∧ a ∈ ids (s :: rest)) then a else id s
                      | None => id s
                      end).
  { unfold loadSessions in Hload.
    destruct (truthy_opt (terminal_sessions ls)).
    - destruct (Json.parse _) as [v|]; [|done].
      destruct (as_sessions v) as [l|]; [|done].
      destruct (active_terminal_tab ls) as [a|];
        cbn [truthy_opt default from_option Datatypes.id] in Hload.
      + destruct (truthy a) eqn:Ha; cbn [andb] in Hload.
        * destruct (bool_decide (Exists (λ s0, id s0 = a) l)) eqn:Hex.
          -- simplify_eq. simpl in Hs. subst l. simpl.
             apply bool_decide_eq_true in Hex. apply Exists_exists in Hex as (x & Hx & Hid).
             rewrite decide_True; [done|]. split; [by destruct a|].
             rewrite <- Hid. change (id x ∈ id <$> (s :: rest)).
             by apply list_elem_of_fmap_2.
          -- apply bool_decide_eq_false in Hex.
             destruct l as [|s0 l0]; simplify_eq; simpl in Hs; simplify_eq. simpl.
             rewrite decide_False; [done|]. intros [_ Hin]. apply Hex.
             change (a ∈ id <$> (s :: rest)) in Hin.
             apply list_elem_of_fmap in Hin as (x & Hx & Hin). apply Exists_exists. eauto.
        * destruct l as [|s0 l0]; simplify_eq; simpl in Hs; simplify_eq. simpl.
          rewrite decide_False; [done|]. intros [Hne _]. by destruct a.
      + cbn [andb] in Hload.
        destruct l as [|s0 l0]; simplify_eq; simpl in Hs; by simplify_eq.
    - simplify_eq. simpl in Hs. simplify_eq. simpl.
      destruct (active_terminal_tab ls) as [a|]; [|done].
      case_decide as Ha; [|done]. destruct Ha as [_ Hin].
      apply list_elem_of_singleton in Hin. done. }
  split; [done|]. rewrite Hactive, Hs.
  destruct (active_terminal_tab ls) as [a|]; [|by left].
  case_decide as Ha; [by destruct Ha | by left].
Qed.

Lemma restore_selects_a_session_witness :
  let l := [ {| id := "7"; name := "Terminal 1"; history := [] |};
             {| id := "9"; name := "Terminal 3"; history := [] |} ] in
  let ls := {| terminal_sessions := Some (stringify l); active_terminal_tab := Some "8" |} in
  ∃ st', loadSessions ls initial = Mounted st'
         ∧ sessions st' = l ∧ activeSessionId st' = "7".
Proof.
  intros l ls.
  assert (Hload : loadSessions ls initial
                  = Mounted (setActiveSessionId "7" (setSessions (λ _, l) initial)))
    by (vm_compute; reflexivity).
  eexists. split; [exact Hload|]. split; [reflexivity|].
  destruct (restore_selects_a_session ls initial _ Hload _ _ eq_refl) as [Ha _].
  rewrite Ha. reflexivity.
Defined.

End PersistFacts.

(** ** The component and the route together *)

Section EndToEndFacts.

Import Terminal Persist Server.

Lemma parse_request_body (command : string) :
  plain command = true →
  Json.parse (request_body command)
  = Some (Json.JObject [("command", Json.JString command)]).
Proof.
  intros Hplain.
  assert (Htext : request_body command
                  = String "{" (quote "command" +:+ String ":"
                                  (quote command +:+ String "}" ""))).
  { unfold request_body. by rewrite !append_single. }
  assert (Hbig : ∀ f, (3 <= f)%nat →
                   Json.parse_value f (request_body command)
                   = Some (Json.JObject [("command", Json.JString command)], "")).
  { intros f Hf. destruct f as [|[|[|f]]]; try lia.
    rewrite Htext, parse_value_object_quote.
    erewrite parse_members_close; [reflexivity|reflexivity|].
    by apply parse_value_string. }
  unfold Json.parse. rewrite Hbig; [done|].
  rewrite Htext. simpl. lia.
Qed.

(** X10. The route reads the command back exactly from the body the
    component sends and answers with status 200: the "Invalid JSON" reply
    never comes back to this component. What the page then shows after the
    command Entry is, for a command that exited, an output Entry for a
    non-empty stdout and an error Entry for a non-empty stderr, and for a
    command that failed a single error Entry with its stderr, or with the
    error message when there is no stderr; the exit code is not shown. The
    command text is taken without lone surrogates. *)
Theorem command_reaches_the_shell (shell : string → ShellOutcome) (command : string)
    (statusText : string) (w : World) :
  JsString.trim command ≠ "" → JsString.trim command ≠ "clear" →
  activeSessionId (app w) ≠ "" → plain command = true →
  ∃ result,
    execute shell (request_body command) = Replied 200 result
    ∧ sessions (app (run [Submit command;
                          Settle (length (inflight w))
                            (Response 200 statusText (Parsed result))] w))
      = extend (activeSessionId (app w))
          (command_entry command :: shown (shell command)) (sessions (app w)).
Proof.
  intros Hne Hclear Hactive Hplain. unfold execute.
  rewrite parse_request_body by done.
  cbn [command_of Json.member as_string].
  change (String.eqb "command" "command") with true. cbv iota. cbn [as_string].
  destruct (shell command) as [out err code | err message code];
    (eexists; split; [reflexivity|]);
    rewrite (submit_then_settle command w _ Hne Hclear Hactive); f_equal; f_equal.
  - by destruct out, err.
  - simpl. destruct err as [[|a e]|]; simpl; by destruct message.
Qed.

Lemma command_reaches_the_shell_witness :
  let shell := λ command : string,
    if decide (command = "ls nowhere")
    then Threw (Some "ls: nowhere: No such file or directory")
               "Failed with exit code 1" (Some 1%Z)
    else Exited "" "" 0%Z in
  ∃ result,
    execute shell (request_body "ls nowhere") = Replied 200 result
    ∧ sessions (app (run [Submit "ls nowhere";
                          Settle 0 (Response 200 "OK" (Parsed result))]
                       (idle (bootstrap initial))))
      = [ {| id := "1"; name := "Terminal 1";
             history := [ {| type := Command; content := "$ ls nowhere" |};
                          {| type := Error;
                             content := "ls: nowhere: No such file or directory" |} ] |} ].
Proof.
  intros shell.
  assert (H1 : JsString.trim "ls nowhere" ≠ "") by (vm_compute; discriminate).
  assert (H2 : JsString.trim "ls nowhere" ≠ "clear") by (vm_compute; discriminate).
  assert (H3 : activeSessionId (app (idle (bootstrap initial))) ≠ "")
    by (vm_compute; discriminate).
  destruct (command_reaches_the_shell shell "ls nowhere" "OK" (idle (bootstrap initial))
              H1 H2 H3 eq_refl) as (result & Hreply & Hs).
  exists result. split; [exact Hreply|].
  etransitivity; [exact Hs|]. vm_compute. reflexivity.
Defined.

End EndToEndFacts.

(** ** A tab closed while its command runs; a command typed and recalled *)

Section MoreLifecycleFacts.

Import Terminal Ui.

Implicit Types (st : State) (w : World) (l : list TerminalSession).

Lemma extend_absent (sid : string) (es : list TerminalEntry) l :
  sid ∉ ids l → extend sid es l = l.
Proof.
  induction l as [|s l IH]; intros Hnot; [done|].
  simpl in Hnot. apply not_elem_of_cons in Hnot as [Hs Hrest].
  simpl. rewrite decide_False by congruence. by rewrite IH.
Qed.

(** X11. The tab of a running command is closed (there is another tab
    left) before the service answers. When the answer arrives it is dropped:
    no session receives an Entry, the sessions that remain are exactly what
    they were before the submission, and the busy flag is cleared. *)
Theorem result_for_a_closed_tab_is_dropped (command : string) w (o : FetchOutcome) :
  JsString.trim command ≠ "" → JsString.trim command ≠ "clear" →
  activeSessionId (app w) ≠ "" → (1 < length (sessions (app w)))%nat →
  let A := activeSessionId (app w) in
  let w' := run [Submit command; CloseTab A; Settle (length (inflight w)) o] w in
  sessions (app w') = filter (λ s, id s ≠ A) (sessions (app w))
  ∧ isLoading (app w') = false
  ∧ inflight w' = inflight w.
Proof.
  intros Hne Hclear Hactive Hmany A w'.
  destruct (step_submit_full command w Hne Hclear Hactive)
    as (Hf1 & Hs1 & Hact1 & Hc1 & Hr1 & _).
  set (w1 := step w (Submit command)) in *.
  set (w2 := step w1 (CloseTab A)).
  assert (Hs2 : sessions (app w2) = filter (λ s, id s ≠ A) (sessions (app w))).
  { subst w2. cbn [step on_app app]. unfold latest, closeTab.
    rewrite Hs1, length_extend.
    replace (length (sessions (app w)) =? 1)%nat with false
      by (symmetry; apply Nat.eqb_neq; lia).
    case_decide; cbn [sessions setActiveSessionId setSessions];
      rewrite Hs1; apply extend_others. }
  assert (Hc2 : controllers (app w2) = (controllers (app w) ++ [false])%list).
  { subst w2. cbn [step on_app app]. unfold latest, closeTab.
    destruct (_ =? _)%nat; [done|]. by case_decide. }
  assert (Hf2 : inflight w2
                = (inflight w ++ [{| captured_activeSessionId := A;
                                     captured_command := command;
                                     signal := length (controllers (app w)) |}])%list)
    by exact Hf1.
  subst w'. change (run [Submit command; CloseTab A; Settle (length (inflight w)) o] w)
    with (step w2 (Settle (length (inflight w)) o)).
  erewrite step_settle by (rewrite Hf2; by apply list_lookup_middle).
  rewrite resume_settled by (by apply aborted_fresh).
  cbn [app inflight sessions isLoading setAbortControllerRef setIsLoading setSessions
       captured_activeSessionId].
  rewrite Hs2, Hf2, delete_middle, app_nil_r.
  by rewrite extend_absent by apply filter_id_gone.
Qed.

Lemma result_for_a_closed_tab_is_dropped_witness :
  let w := idle (latest (createNewTab 2) (bootstrap initial)) in
  let o := Response 200 "OK"
             (Parsed {| stdout := Some "done"; stderr := None; error := None;
                        exitCode := Some 0%Z |}) in
  sessions (app (run [Submit "make"; CloseTab "2"; Settle 0 o] w))
  = [ {| id := "1"; name := "Terminal 1"; history := [] |} ].
Proof.
  intros w o.
  assert (H1 : JsString.trim "make" ≠ "") by (vm_compute; discriminate).
  assert (H2 : JsString.trim "make" ≠ "clear") by (vm_compute; discriminate).
  assert (H3 : activeSessionId (app w) ≠ "") by (vm_compute; discriminate).
  assert (H4 : (1 < length (sessions (app w)))%nat) by (vm_compute; lia).
  destruct (result_for_a_closed_tab_is_dropped "make" w o H1 H2 H3 H4) as (Hs & _).
  etransitivity; [exact Hs|]. vm_compute. reflexivity.
Defined.

(** X12. A command typed into the input and sent with Enter is put at the
    front of the command-history list as it was typed, and the next ArrowUp
    brings exactly that text back into the input, with the cursor on the
    first entry, also while the command is still running. *)
Theorem enter_then_arrow_up_recalls_the_command (enter up : KeyboardEvent)
    (s1 s2 : string) w :
  key enter = "Enter" → ctrlKey enter = false → key up = "ArrowUp" →
  isLoading (app w) = false → activeSessionId (app w) ≠ "" →
  JsString.trim (currentCommand (app w)) ≠ "" →
  JsString.trim (currentCommand (app w)) ≠ "clear" →
  let typed := currentCommand (app w) in
  let w1 := interact [KeyDown enter s1] w in
  let w2 := interact [KeyDown enter s1; KeyDown up s2] w in
  currentCommand (app w1) = ""
  ∧ head (commandHistory (app w1)) = Some typed
  ∧ currentCommand (app w2) = typed
  ∧ historyIndex (app w2) = 0%Z
  ∧ isLoading (app w2) = true.
Proof.
  intros Henter Hctrl Hup Hidle Hactive Hne Hclear typed w1 w2.
  assert (Hw1 : w1 = step w (Submit typed)).
  { subst w1. rewrite interact_cons, interact_nil. cbn [react].
    unfold handleKeyDown. rewrite Henter, Hctrl, Hidle. reflexivity. }
  destruct (executeCommand_cases typed (app w)) as [H | [[Hc _] | (_ & _ & _ & H)]].
  - exfalso. destruct (executeCommand_sends typed (app w) Hne Hclear Hactive)
      as (st' & Hexec & _). congruence.
  - done.
  - assert (Happ : app w1
              = setAbortControllerRef (Some (length (controllers (app w))))
                  (setControllers (λ h, (h ++ [false])%list)
                     (setIsLoading true (setCurrentCommand ""
                        (updateSessionHistory (activeSessionId (app w))
                           (command_entry typed)
                           (setHistoryIndex (-1)
                              (setCommandHistory (HistoryNavigator.push typed) (app w)))))))).
    { rewrite Hw1. cbn [step]. by rewrite H. }
    assert (Hh : commandHistory (app w1) = HistoryNavigator.push typed (commandHistory (app w)))
      by (by rewrite Happ).
    assert (Hi : historyIndex (app w1) = (-1)%Z) by (by rewrite Happ).
    split; [by rewrite Happ|]. split; [by rewrite Hh, push_unfold|].
    assert (Hne1 : commandHistory (app w1) ≠ []) by (by rewrite Hh, push_unfold).
    destruct (arrow_up_step up s2 w1 Hup Hne1) as (Hi2 & Hc2 & Hh2 & _ & _).
    change w2 with (react w1 (KeyDown up s2)). cbn [react].
    assert (Hl2 : isLoading (app (handleKeyDown up s2 w1)) = true).
    { rewrite handleKeyDown_ArrowUp by done.
      destruct (0 <? _)%nat; cbn [on_app app]; by rewrite Happ. }
    rewrite Hc2, Hi2, Hi, Hh, push_unfold. cbn [length].
    replace ((-1 + 1) `min` (Z.of_nat (S (length (take 49
               (filter (λ cmd, cmd ≠ typed) (commandHistory (app w)))))) - 1))%Z
      with 0%Z by lia.
    split; [|done]. unfold recalled. simpl. apply or_else_empty.
Qed.

Lemma enter_then_arrow_up_recalls_the_command_witness :
  let enter := {| ctrlKey := false; key := "Enter" |} in
  let up := {| ctrlKey := false; key := "ArrowUp" |} in
  let w := interact [Change "  git status "] (idle (bootstrap initial)) in
  currentCommand (app (interact [KeyDown enter ""; KeyDown up ""] w)) = "  git status ".
Proof.
  intros enter up w.
  assert (H1 : JsString.trim (currentCommand (app w)) ≠ "") by (vm_compute; discriminate).
  assert (H2 : JsString.trim (currentCommand (app w)) ≠ "clear") by (vm_compute; discriminate).
  assert (H3 : activeSessionId (app w) ≠ "") by (vm_compute; discriminate).
  destruct (enter_then_arrow_up_recalls_the_command enter up "" "" w
              eq_refl eq_refl eq_refl eq_refl H3 H1 H2) as (_ & _ & Hc & _).
  exact Hc.
Defined.

(** The component after a submission that is sent and a request that settles
    without having been aborted. *)
Lemma submit_then_settle_full (command : string) w (o : FetchOutcome) :
  JsString.trim command ≠ "" → JsString.trim command ≠ "clear" →
  activeSessionId (app w) ≠ "" →
  let w' := run [Submit command; Settle (length (inflight w)) o] w in
  sessions (app w')
  = extend (activeSessionId (app w)) (command_entry command :: outcome_entries o)
      (sessions (app w))
  ∧ isLoading (app w') = false
  ∧ abortControllerRef (app w') = None
  ∧ inflight w' = inflight w.
Proof.
  intros Hne Hclear Hactive w'.
  split; [by apply submit_then_settle|].
  destruct (step_submit_full command w Hne Hclear Hactive) as (Hf & _ & _ & Hc & _).
  subst w'. rewrite !run_cons, run_nil.
  erewrite step_settle by (rewrite Hf; by apply list_lookup_middle).
  rewrite resume_settled by (by apply aborted_fresh).
  cbn [app inflight isLoading abortControllerRef setAbortControllerRef setIsLoading].
  by rewrite Hf, delete_middle, app_nil_r.
Qed.

(** X13. When the request fails, that is the network fails, or the status
    is not 2xx, or the body of a 2xx response cannot be read as JSON, the
    page shows after the command Entry exactly one error Entry, "Failed to
    execute command: " followed by the reason (for a bad status "HTTP", the
    status and the status text), and clears the busy flag and the
    controller reference. The body of a response with a bad status is never
    looked at, so an [error] field in it is not shown. *)
Theorem failed_request_shows_one_error (command : string) w (o : FetchOutcome)
    (reason : string) :
  JsString.trim command ≠ "" → JsString.trim command ≠ "clear" →
  activeSessionId (app w) ≠ "" →
  (o = NetworkError reason
   ∨ (∃ status statusText body,
        ok status = false ∧ o = Response status statusText body
        ∧ reason = "HTTP " +:+ JsString.of_nat status +:+ ": " +:+ statusText)
   ∨ (∃ status statusText,
        ok status = true ∧ o = Response status statusText (Malformed reason))) →
  let w' := run [Submit command; Settle (length (inflight w)) o] w in
  sessions (app w')
  = extend (activeSessionId (app w))
      [command_entry command;
       {| type := Error; content := "Failed to execute command: " +:+ reason |}]
      (sessions (app w))
  ∧ isLoading (app w') = false
  ∧ abortControllerRef (app w') = None.
Proof.
  intros Hne Hclear Hactive Ho w'.
  destruct (submit_then_settle_full command w o Hne Hclear Hactive) as (Hs & Hl & Hr & _).
  split; [|done]. fold w' in Hs. rewrite Hs. f_equal. f_equal.
  destruct Ho as [-> | [(status & statusText & body & Hok & -> & ->)
                        | (status & statusText & Hok & ->)]];
    simpl; by rewrite ?Hok.
Qed.

Lemma failed_request_shows_one_error_witness :
  let w := idle (bootstrap initial) in
  let o := Response 400 "Bad Request"
             (Parsed {| stdout := None; stderr := None; error := Some "Invalid JSON";
                        exitCode := None |}) in
  sessions (app (run [Submit "ls"; Settle 0 o] w))
  = [ {| id := "1"; name := "Terminal 1";
         history := [ {| type := Command; content := "$ ls" |};
                      {| type := Error;
                         content := "Failed to execute command: HTTP 400: Bad Request" |} ] |} ].
Proof.
  intros w o.
  assert (H1 : JsString.trim "ls" ≠ "") by (vm_compute; discriminate).
  assert (H2 : JsString.trim "ls" ≠ "clear") by (vm_compute; discriminate).
  assert (H3 : activeSessionId (app w) ≠ "") by (vm_compute; discriminate).
  destruct (failed_request_shows_one_error "ls" w o "HTTP 400: Bad Request" H1 H2 H3)
    as (Hs & _).
  { right. left. exists 400%nat, "Bad Request", (Parsed {| stdout := None; stderr := None;
      error := Some "Invalid JSON"; exitCode := None |}).
    split; [reflexivity|]. split; [reflexivity|]. vm_compute. reflexivity. }
  etransitivity; [exact Hs|]. vm_compute. reflexivity.
Defined.

End MoreLifecycleFacts.
